(** * The round lifecycle engine of rise-node: modules/rounds.ts and
      modules/accounts.ts

    A shallow embedding of [RoundsModule] (tick, backwardTick, innerTick,
    getOutsiders, sumRound) and of the [AccountsModule] facade, together with
    the properties of the engine that the specification states.

    Collaborators that the two modules only call (the rounds logic, the round
    logic, the block store query, the database helper, the bus) are not part
    of these sources; they appear either as fields of an environment record
    or as definitions modelled from the specification, and each such
    definition says so.

    After the engine come the reading entry points of [AccountsModule], the
    request logger (apis/utils/requestLogger.ts) and the posting handlers of
    the peer transport controller (apis/transportv2API.ts), with properties
    read off their code. *)

From Stdlib Require Import ZArith List String Ascii Bool Lia.
From Stdlib Require Import Decimal DecimalString DecimalN DecimalZ DecimalPos.
From Stdlib Require Import SpecFloat.
From stdpp Require Import base option list gmap strings.

Open Scope Z_scope.

(* ===================================================================== *)
(** * JavaScript numbers, as far as [sumRound] uses them *)
(* ===================================================================== *)

Module JS.

(** A JS number is an IEEE 754 binary64 value. The Standard Library's
    [spec_float] is the specification of such values; 53 bits of precision
    and 1024 as the exponent of the infinities give binary64. *)
Definition number : Type := spec_float.

Definition NaN : number := S754_nan.
Definition zero : number := S754_zero false.

(** The double nearest to an integer (ties to even), as a decimal literal
    denotes it. *)
Definition of_Z (z : Z) : number := binary_normalize 53 1024 z 0 false.

(** The integer a number denotes, when it denotes one. *)
Definition to_Z (x : number) : option Z :=
  match x with
  | S754_zero _ => Some 0
  | S754_finite s m e =>
      let v := if s then Z.neg m else Z.pos m in
      if 0 <=? e then Some (v * 2 ^ e)
      else if Z.pos m mod 2 ^ (- e) =? 0 then Some (v / 2 ^ (- e))
      else None
  | _ => None
  end.

(** [Math.floor]. A number that already denotes an integer, an infinity
    and NaN are returned as they are. *)
Definition Math_floor (x : number) : number :=
  match x with
  | S754_finite s m e =>
      if 0 <=? e then x
      else if Z.pos m mod 2 ^ (- e) =? 0 then x
      else binary_normalize 53 1024
             ((if s then Z.neg m else Z.pos m) / 2 ^ (- e)) 0 s
  | _ => x
  end.

(** ** [parseFloat] on decimal integer literals

    The fragment that a bigint column rendered in decimal needs: leading
    white space is skipped, an optional sign is read, then the longest
    run of decimal digits; what follows the digits is ignored, and a
    string without a digit in that position is NaN. Fractions and
    exponents are not interpreted. *)

Definition is_white (c : ascii) : bool :=
  (Ascii.eqb c " " || Ascii.eqb c "009" || Ascii.eqb c "010"
   || Ascii.eqb c "011" || Ascii.eqb c "012" || Ascii.eqb c "013")%char.

Fixpoint trimStart (s : string) : string :=
  match s with
  | String c s' => if is_white c then trimStart s' else s
  | EmptyString => s
  end.

Definition digit_of_char (c : ascii) : option (uint -> uint) :=
  match c with
  | "0" => Some D0 | "1" => Some D1 | "2" => Some D2 | "3" => Some D3
  | "4" => Some D4 | "5" => Some D5 | "6" => Some D6 | "7" => Some D7
  | "8" => Some D8 | "9" => Some D9
  | _ => None
  end%char.

(** The longest prefix of decimal digits. *)
Fixpoint StrDigits (s : string) : uint :=
  match s with
  | String c s' =>
      match digit_of_char c with
      | Some d => d (StrDigits s')
      | None => Nil
      end
  | EmptyString => Nil
  end.

Definition StrUnsigned (s : string) : number :=
  match StrDigits s with
  | Nil => NaN
  | u => of_Z (Z.of_N (N.of_uint u))
  end.

Definition parseFloat (s : string) : number :=
  match trimStart s with
  | String "-" s' => SFopp (StrUnsigned s')
  | String "+" s' => StrUnsigned s'
  | s' => StrUnsigned s'
  end%char.

(** The decimal rendering of an integer, as the database driver hands a
    bigint to the program. *)
Definition decimal (v : Z) : string := NilEmpty.string_of_int (Z.to_int v).

(** [Number.MAX_SAFE_INTEGER + 1]. *)
Definition two53 : Z := 9007199254740992.

End JS.

(* ===================================================================== *)
(** * Buffers and their hexadecimal rendering *)
(* ===================================================================== *)

Definition Buffer : Type := list Byte.byte.
Definition address : Type := string.

(** The sixteen digits, in order. *)
Definition hex_alphabet : list ascii :=
  list_ascii_of_string "0123456789abcdef".

Definition hex_digit (n : N) : ascii :=
  nth (N.to_nat n) hex_alphabet "f"%char.

(** The position of a character in a list, counted from [i]. *)
Fixpoint position_from (i : N) (c : ascii) (l : list ascii) : option N :=
  match l with
  | [] => None
  | d :: l' => if Ascii.eqb d c then Some i else position_from (i + 1)%N c l'
  end.

Definition unhex_digit (c : ascii) : option N := position_from 0%N c hex_alphabet.

(** [buf.toString('hex')]: two lower-case digits per byte. *)
Fixpoint Buffer_toString_hex (b : Buffer) : string :=
  match b with
  | [] => EmptyString
  | x :: b' =>
      let n := Byte.to_N x in
      String (hex_digit (n / 16)) (String (hex_digit (n mod 16))
             (Buffer_toString_hex b'))
  end.

Definition unhex_byte (hi lo : ascii) : option Byte.byte :=
  match unhex_digit hi, unhex_digit lo with
  | Some h, Some l => Byte.of_N (16 * h + l)
  | _, _ => None
  end.

(** [arr.indexOf(x)] on an array of strings: the first index at which the
    element is strictly equal to [x], or -1. *)
Fixpoint indexOf_from (i : Z) (l : list string) (x : string) : Z :=
  match l with
  | [] => -1
  | y :: l' => if String.eqb y x then i else indexOf_from (i + 1) l' x
  end.

Definition indexOf (l : list string) (x : string) : Z := indexOf_from 0 l x.

(* ===================================================================== *)
(** * Data of the engine *)
(* ===================================================================== *)

(** The fields of a block that the engine reads. *)
Record SignedBlockType := {
  blk_id : string;
  blk_height : Z;
  blk_generatorPublicKey : Buffer;
  blk_reward : Z;
  blk_totalFee : Z;
}.

(** The handle of the caller's database transaction. *)
Definition Transaction : Type := nat.

(** What [RoundsModel.sumRound] resolves to: the column values as the
    driver renders them. *)
Record RawRoundSums := {
  fees : string;
  rewards : list string;
  delegates : list Buffer;
}.

(** What [RoundsModule.sumRound] returns. *)
Record RoundSums := {
  roundFees : JS.number;
  roundRewards : list JS.number;
  roundDelegates : list Buffer;
}.

(** Modelled from the spec: the account model is not among the sources.
    The numeric attributes of a delegate account that the engine changes; a
    value of this type is also used for the additive deltas of a merge. *)
Record MemAccounts := {
  balance : Z;
  u_balance : Z;
  vote : Z;
  votesWeight : Z;
  producedblocks : Z;
  missedblocks : Z;
  acc_fees : Z;
  acc_rewards : Z;
}.

Definition acc_add (a d : MemAccounts) : MemAccounts :=
  {| balance := balance a + balance d;
     u_balance := u_balance a + u_balance d;
     vote := vote a + vote d;
     votesWeight := votesWeight a + votesWeight d;
     producedblocks := producedblocks a + producedblocks d;
     missedblocks := missedblocks a + missedblocks d;
     acc_fees := acc_fees a + acc_fees d;
     acc_rewards := acc_rewards a + acc_rewards d |}.

Definition acc_neg (d : MemAccounts) : MemAccounts :=
  {| balance := - balance d;
     u_balance := - u_balance d;
     vote := - vote d;
     votesWeight := - votesWeight d;
     producedblocks := - producedblocks d;
     missedblocks := - missedblocks d;
     acc_fees := - acc_fees d;
     acc_rewards := - acc_rewards d |}.

(** Modelled from the spec: the type of the database operations is not
    among the sources. A closed set of kinds: an additive merge on one
    account (tagged with the round for the audit trail), the stamp of a
    block id on the round, and the truncation of the block table. *)
Inductive DBOp :=
| OpMergeAccount (addr : address) (diff : MemAccounts) (round : Z)
| OpMarkBlockId (blockId : string) (round : Z)
| OpTruncateBlocks (aboveHeight : Z).



(** The messages this module puts on the bus. *)
Inductive BusEvent :=
| roundBackwardTick (block : SignedBlockType)
| finishRound_event (round : Z).

(** The keys of the application state that this module writes. *)
Inductive AppKey := rounds_isLoaded | rounds_isTicking.

Record AppState := {
  isLoaded : bool;
  isTicking : bool;
  snapshot : option Z;   (* 'rounds.snapshot': undefined or a number *)
}.

(** The scope that [innerTick] hands to the round logic. The handles it
    also carries (logger, models, accounts module) are the environment. *)
Record RoundLogicScope := {
  backwards : bool;
  block : SignedBlockType;
  dposV2 : bool;
  finishRound : bool;
  round : Z;
  roundOutsiders : option (list address);
  (* ...roundSums: roundFees, roundRewards and roundDelegates are there
     exactly when roundSums is not null *)
  roundSums : option RoundSums;
}.

(** ** Errors *)

(** What a rejected promise carries: an error object, known by its
    message, or nothing that has a message: null or undefined. A string
    where a reason is expected stands for the error with that message. *)
Inductive Reason :=
| WithMessage (message : string)
| Nullish.

Coercion WithMessage : string >-> Reason.

(** A thrown value. Kept apart are the errors that this code creates, the
    TypeError of a property read on round sums that are null, the TypeError
    of any other read of a property of a value that is null or undefined
    (the value and the property are named), and what a collaborator
    rejected with. *)
Inductive Error :=
| JsError (message : string)
| TypeError_null (property : string)
| TypeError_nullish (object property : string)
| Rejected (reason : Reason).

Inductive Result (A : Type) :=
| Ok (a : A)
| Err (e : Error).
Arguments Ok {A} a.
Arguments Err {A} e.

(** What a call to a collaborator comes back with: a value, or a
    rejection (a throw, for a call that is not a promise) and its reason. *)
Inductive Outcome (A : Type) :=
| Resolved (a : A)
| Failed (reason : Reason).
Arguments Resolved {A} a.
Arguments Failed {A} reason.

(** ** The observable effects of a call, in a log *)

(** The second argument of a call of the logger: none, a number, or
    [e.message || e] for a caught value [e] that is not null or undefined. *)
Inductive LogArg :=
| NoArg
| NumArg (n : Z)
| MessageOrSelf (e : Error).

Inductive Effect :=
| AppStateSet (key : AppKey) (v : bool)
| Logged (level message : string) (arg : LogArg)
| BusMessage (ev : BusEvent)
| SumRoundQuery (activeDelegates round : Z) (tx : Transaction)
| DelegateListQuery (height : Z)
| NewRoundLogic (scope : RoundLogicScope)
| PerformOps (ops : list DBOp) (tx : Transaction).

(** The state a call runs in: the application flags, the account table
    behind the transaction, and the log of effects, newest first. *)
Record State := {
  appState : AppState;
  accounts : gmap address MemAccounts;
  effects : list Effect;
}.

(** The effects in the order in which they happened. *)
Definition history (s : State) : list Effect := rev (effects s).

(* ===================================================================== *)
(** * Promises in sequence: a state and error monad *)
(* ===================================================================== *)

(** An [async] body is run to completion in program order (the pipeline
    serialises block processing), so [await] is sequencing. A throw leaves
    the state as it is at the throw: assignments already made stay. *)
Definition M (A : Type) : Type := State -> Result A * State.

Definition ret {A : Type} (a : A) : M A := fun s => (Ok a, s).

Definition bind {A B : Type} (m : M A) (k : A -> M B) : M B :=
  fun s =>
    match m s with
    | (Ok a, s') => k a s'
    | (Err e, s') => (Err e, s')
    end.

Definition throw {A : Type} (e : Error) : M A := fun s => (Err e, s).

(** [try { body } catch (e) { handler(e) }]. *)
Definition try_catch {A : Type} (body : M A) (handler : Error -> M A) : M A :=
  fun s =>
    match body s with
    | (Ok a, s') => (Ok a, s')
    | (Err e, s') => handler e s'
    end.

#[global] Instance M_ret : MRet M := @ret.
#[global] Instance M_bind : MBind M := fun A B k m => bind m k.

(** The three ways in which a step changes the state. *)
Definition log_effect (e : Effect) (s : State) : State :=
  {| appState := appState s; accounts := accounts s; effects := e :: effects s |}.

Definition map_accounts
  (f : gmap address MemAccounts -> gmap address MemAccounts) (s : State) : State :=
  {| appState := appState s; accounts := f (accounts s); effects := effects s |}.

Definition set_key (key : AppKey) (v : bool) (s : State) : State :=
  let a := appState s in
  {| appState :=
       match key with
       | rounds_isLoaded =>
           {| isLoaded := v; isTicking := isTicking a; snapshot := snapshot a |}
       | rounds_isTicking =>
           {| isLoaded := isLoaded a; isTicking := v; snapshot := snapshot a |}
       end;
     accounts := accounts s;
     effects := effects s |}.

Definition effect (e : Effect) : M unit := fun s => (Ok tt, log_effect e s).

Definition update_accounts
  (f : gmap address MemAccounts -> gmap address MemAccounts) : M unit :=
  fun s => (Ok tt, map_accounts f s).

(** Waiting for a collaborator: a failure is thrown at the [await]. *)
Definition await {A : Type} (o : Outcome A) : M A :=
  match o with
  | Resolved a => ret a
  | Failed msg => throw (Rejected msg)
  end.

Definition outcome_of {A : Type} (r : Result A * State) : Result A := fst r.
Definition state_of {A : Type} (r : Result A * State) : State := snd r.

(* ===================================================================== *)
(** * JavaScript values and objects, for the accounts facade *)
(* ===================================================================== *)

Inductive value :=
| VUndefined
| VNull
| VBool (b : bool)
| VNum (x : JS.number)
| VStr (s : string)
| VBuf (b : Buffer).

(** The conversion to boolean that [!v] and [if (v)] apply. *)
Definition truthy (v : value) : bool :=
  match v with
  | VUndefined | VNull => false
  | VBool b => b
  | VNum (S754_zero _) | VNum S754_nan => false
  | VNum _ => true
  | VStr s => negb (String.eqb s EmptyString)
  | VBuf _ => true
  end.

(** A plain object, by its own properties. A missing property reads as
    undefined. *)
Definition get_prop (o : gmap string value) (k : string) : value :=
  default VUndefined (o !! k).

(* ===================================================================== *)
(** * The collaborators *)
(* ===================================================================== *)

(** [accountLogic], as the accounts module uses it. *)
Record IAccountLogic := {
  al_generateAddressByPublicKey : value -> string;
  al_set : value -> gmap string value -> Outcome unit;
  al_get : gmap string value -> Outcome value;
  (* merge(address, diff) and merge(address, diff, cb) *)
  al_merge : value -> gmap string value -> bool -> Outcome value;
}.

(** Everything else the rounds module is wired to: the constants, the block
    store query, the delegates module, the account logic, and how the
    database helper and the bus answer. *)
Record Env := {
  activeDelegates : Z;
  dposv2_firstBlock : Z;
  RoundsModel_sumRound : Z -> Z -> Transaction -> Outcome RawRoundSums;
  generateDelegateList : Z -> Outcome (list Buffer);
  accountLogic : IAccountLogic;
  performOps_outcome : list DBOp -> Transaction -> Outcome unit;
  bus_outcome : BusEvent -> Outcome unit;
}.

(* ===================================================================== *)
(** * modules/accounts.ts *)
(* ===================================================================== *)

Module AccountsModule.
Section WithAccountLogic.

Variable accountLogic : IAccountLogic.

Definition missing_error : Error := JsError "Missing address and public key".

(** The first lines that the three merging entry points share: the
    guard, the derivation of the address, [const {address} = data] and
    [delete data.address]. The argument object is changed in place, so
    the object as the caller sees it afterwards is returned too. *)
Definition take_address (data : gmap string value)
  : Result value * gmap string value :=
  if negb (truthy (get_prop data "address"))
     && negb (truthy (get_prop data "publicKey"))
  then (Err missing_error, data)
  else
    let data1 :=
      if negb (truthy (get_prop data "address"))
      then <["address" :=
               VStr (al_generateAddressByPublicKey accountLogic
                       (get_prop data "publicKey"))]> data
      else data in
    let address := get_prop data1 "address" in
    (Ok address, delete "address" data1).

Definition lift_outcome {A : Type} (o : Outcome A) : Result A :=
  match o with
  | Resolved a => Ok a
  | Failed msg => Err (Rejected msg)
  end.

Definition setAccountAndGet (data : gmap string value)
  : Result value * gmap string value :=
  match take_address data with
  | (Err e, data') => (Err e, data')
  | (Ok address, data') =>
      match al_set accountLogic address data' with
      | Failed msg => (Err (Rejected msg), data')
      | Resolved _ =>
          (lift_outcome (al_get accountLogic {["address" := address]}), data')
      end
  end.

Definition mergeAccountAndGetSQL (diff : gmap string value)
  : Result value * gmap string value :=
  match take_address diff with
  | (Err e, diff') => (Err e, diff')
  | (Ok address, diff') =>
      (lift_outcome (al_merge accountLogic address diff' false), diff')
  end.

Definition mergeAccountAndGet (diff : gmap string value)
  : Result value * gmap string value :=
  match take_address diff with
  | (Err e, diff') => (Err e, diff')
  | (Ok address, diff') =>
      (lift_outcome (al_merge accountLogic address diff' true), diff')
  end.

Definition generateAddressByPublicKey (pk : value) : string :=
  al_generateAddressByPublicKey accountLogic pk.

End WithAccountLogic.

End AccountsModule.

(* ===================================================================== *)
(** * logic/rounds: the round arithmetic *)
(* ===================================================================== *)

Module RoundsLogic.

(** Modelled from the spec: the rounds logic is not among the sources.
    [round_of(h) = ceil(h / N)], with [N] the number of active delegates. *)
Definition calcRound (N h : Z) : Z := - ((- h) / N).

(** Modelled from the spec: [first_in_round(r) = (r-1)*N + 1]. *)
Definition firstInRound (N r : Z) : Z := (r - 1) * N + 1.

(** Modelled from the spec: [last_in_round(r) = r*N]. *)
Definition lastInRound (N r : Z) : Z := r * N.

End RoundsLogic.

(* ===================================================================== *)
(** * logic/round: the operations of one tick *)
(* ===================================================================== *)

Module RoundLogic.
Section WithEnv.

Variable env : Env.

Let N : Z := activeDelegates env.

(** Modelled from the spec: the round logic class is not among the sources.
    It names a delegate by its public key; the accounts module turns the
    key into the address of the merge. *)
Definition addressOf (pk : Buffer) : address :=
  AccountsModule.generateAddressByPublicKey (accountLogic env) (VBuf pk).

(** Modelled from the spec: the conversion point from the numbers of the
    scope to the exact integers of the operations. A number that denotes no
    integer (NaN, an infinity) has no amount; it counts as 0 here. *)
Definition i64 (x : JS.number) : Z := default 0 (JS.to_Z x).

(** Modelled from the spec: the fields of the round context that the
    operations read; they are empty when the scope has no sums. *)
Definition scopeFees (sc : RoundLogicScope) : Z :=
  match roundSums sc with Some rs => i64 (roundFees rs) | None => 0 end.

Definition scopeRewards (sc : RoundLogicScope) : list Z :=
  match roundSums sc with Some rs => map i64 (roundRewards rs) | None => [] end.

Definition scopeDelegates (sc : RoundLogicScope) : list Buffer :=
  match roundSums sc with Some rs => roundDelegates rs | None => [] end.

Definition scopeOutsiders (sc : RoundLogicScope) : list address :=
  default [] (roundOutsiders sc).

(** Modelled from the spec: a delta on [balance] and [u_balance]. *)
Definition credit (amount : Z) : MemAccounts :=
  {| balance := amount; u_balance := amount; vote := 0; votesWeight := 0;
     producedblocks := 0; missedblocks := 0; acc_fees := 0; acc_rewards := 0 |}.

(** Modelled from the spec: the negation of an operation, for [undo()]. *)
Definition negate (op : DBOp) : DBOp :=
  match op with
  | OpMergeAccount a d r => OpMergeAccount a (acc_neg d) r
  | _ => op
  end.

(** Modelled from the spec: the round logic class is not among the
    sources. [merge_block_generator] emits, for the generator of the
    current block, +1 producedblocks and the block's reward and fee on
    balance and u_balance, tagged with the round. The specification
    words these deltas without regard to the direction of the tick. *)
Definition mergeBlockGenerator (sc : RoundLogicScope) : list DBOp :=
  let b := block sc in
  let amount := blk_reward b + blk_totalFee b in
  let diff :=
    {| balance := amount; u_balance := amount; vote := 0; votesWeight := 0;
       producedblocks := 1; missedblocks := 0;
       acc_fees := 0; acc_rewards := 0 |} in
  [OpMergeAccount (addressOf (blk_generatorPublicKey b)) diff (round sc)].

(** Modelled from the spec: the fee split. The share of each delegate is
    [floor(roundFees / N)], the remainder is [roundFees - share * N]. *)
Definition perFee (sc : RoundLogicScope) : Z := scopeFees sc / N.

Definition remainderFees (sc : RoundLogicScope) : Z :=
  scopeFees sc - perFee sc * N.

(** Modelled from the spec: the operations for the delegate at index [i]
    of [n]: the share and the reward of its slot, and the remainder on top
    for the last forger of the round. *)
Definition delegateOps (sc : RoundLogicScope) (n i : nat) (pk : Buffer)
  : list DBOp :=
  OpMergeAccount (addressOf pk)
    (credit (perFee sc + default 0 (scopeRewards sc !! i))) (round sc)
  :: (if Nat.eqb (S i) n
      then [OpMergeAccount (addressOf pk) (credit (remainderFees sc)) (round sc)]
      else []).

(** Modelled from the spec: +1 missedblocks for an outsider. *)
Definition outsiderOp (sc : RoundLogicScope) (a : address) : DBOp :=
  OpMergeAccount a
    {| balance := 0; u_balance := 0; vote := 0; votesWeight := 0;
       producedblocks := 0; missedblocks := 1;
       acc_fees := 0; acc_rewards := 0 |} (round sc).

(** Modelled from the spec: [apply()] emits only when the round
    finishes; per delegate of [roundDelegates] the credit above, then +1
    missedblocks for each outsider. *)
Definition apply (sc : RoundLogicScope) : list DBOp :=
  if finishRound sc then
    mjoin (imap (delegateOps sc (length (scopeDelegates sc))) (scopeDelegates sc))
    ++ map (outsiderOp sc) (scopeOutsiders sc)
  else [].

(** Modelled from the spec: [undo()] emits only when the round finishes
    and the tick is backwards: the exact negation of [apply()], in
    reverse order. *)
Definition undo (sc : RoundLogicScope) : list DBOp :=
  if finishRound sc && backwards sc then map negate (rev (apply sc)) else [].

(** Modelled from the spec: the stamp of the block id on the round. *)
Definition markBlockId (sc : RoundLogicScope) : DBOp :=
  OpMarkBlockId (blk_id (block sc)) (round sc).

(** Modelled from the spec: drop the blocks above the round boundary. *)
Definition truncateBlocks (sc : RoundLogicScope) : DBOp :=
  OpTruncateBlocks (RoundsLogic.lastInRound N (round sc)).

End WithEnv.

End RoundLogic.

(* ===================================================================== *)
(** * helpers/db: running the operations in the transaction *)
(* ===================================================================== *)

(** Modelled from the spec: the account store is not among the sources.
    A merge adds its deltas to the account it names and touches nothing when
    there is no such account: the engine never creates or deletes accounts.
    The two other kinds of operation act on the block table. *)
Definition exec_op (acc : gmap address MemAccounts) (op : DBOp)
  : gmap address MemAccounts :=
  match op with
  | OpMergeAccount a d _ => alter (fun x => acc_add x d) a acc
  | _ => acc
  end.

(** Modelled from the spec: the operations of a list take effect in the
    order of the list. *)
Definition exec_ops (ops : list DBOp) (acc : gmap address MemAccounts)
  : gmap address MemAccounts :=
  fold_left exec_op ops acc.

(** Modelled from the spec: the database helper is not among the sources.
    [performOps(ops, tx)] runs the operations in the order of the list inside
    the transaction; when the store fails, none of them takes effect. *)
Definition dbHelper_performOps (env : Env) (ops : list DBOp) (tx : Transaction)
  : M unit :=
  effect (PerformOps ops tx);;
  await (performOps_outcome env ops tx);;
  update_accounts (exec_ops ops).

(* ===================================================================== *)
(** * modules/rounds.ts *)
(* ===================================================================== *)

Module RoundsModule.
Section WithEnv.

Variable env : Env.

Let N : Z := activeDelegates env.

Definition appStateLogic_set (key : AppKey) (v : bool) : M unit :=
  fun s => (Ok tt, log_effect (AppStateSet key v) (set_key key v s)).

Definition logger_debug (msg : string) (arg : LogArg) : M unit :=
  effect (Logged "debug" msg arg).
Definition logger_warn (msg : string) (arg : LogArg) : M unit :=
  effect (Logged "warn" msg arg).

(** [bus.message] returns a promise: the call itself hands the message to
    the bus, and the answer of the bus is only seen where it is awaited. *)
Definition bus_message (ev : BusEvent) : M (Outcome unit) :=
  effect (BusMessage ev);; ret (bus_outcome env ev).

Definition onBlockchainReady : M unit := appStateLogic_set rounds_isLoaded true.

Definition cleanup : M unit := appStateLogic_set rounds_isLoaded false.

(** [this.appStateLogic.get('rounds.snapshot') || 0] *)
Definition getSnapshotRounds : M Z :=
  fun s => (Ok (default 0 (snapshot (appState s))), s).

Definition sumRound (round : Z) (tx : Transaction) : M RoundSums :=
  logger_debug "Summing round" (NumArg round);;
  effect (SumRoundQuery N round tx);;
  res ← await (RoundsModel_sumRound env N round tx);
  let roundRewards :=
    map (fun reward => JS.Math_floor (JS.parseFloat reward)) (rewards res) in
  let roundFees := JS.Math_floor (JS.parseFloat (fees res)) in
  let roundDelegates := delegates res in
  ret {| roundRewards := roundRewards;
         roundFees := roundFees;
         roundDelegates := roundDelegates |}.

Definition getOutsiders (round : Z) (roundDelegates : list Buffer)
  : M (list address) :=
  let strPKDelegates := map Buffer_toString_hex roundDelegates in
  let height := RoundsLogic.lastInRound N round in
  effect (DelegateListQuery height);;
  originalDelegates ← await (generateDelegateList env height);
  ret (map (fun pk =>
              AccountsModule.generateAddressByPublicKey (accountLogic env) (VBuf pk))
         (List.filter
            (fun pk => indexOf strPKDelegates (Buffer_toString_hex pk) =? -1)
            originalDelegates)).

(** Reading a property of [roundSums], which may be null. *)
Definition read_roundSums (rs : option RoundSums) (property : string)
  : M RoundSums :=
  match rs with
  | Some r => ret r
  | None => throw (TypeError_null property)
  end.

(** The part of [innerTick]'s try block between the raising of the
    flag and the call of the generator: the round sums, the correction for
    the genesis block, the outsiders, and the scope literal. [round] and
    [finishRound] are the constants computed before the try. *)
Definition innerTick_scope (block : SignedBlockType)
  (dbTransaction : Transaction) (backwards : bool) : M RoundLogicScope :=
  let round := RoundsLogic.calcRound N (blk_height block) in
  let nextRound := RoundsLogic.calcRound N (blk_height block + 1) in
  let finishRound := negb (nextRound =? round) || (blk_height block =? 1) in
  roundSums ← (if finishRound
               then rs ← sumRound round dbTransaction; ret (Some rs)
               else ret None);
  roundSums ← (if blk_height block =? 1
               then
                 rs ← read_roundSums roundSums "roundDelegates";
                 if negb (Nat.eqb (length (roundDelegates rs)) 1)
                 then ret (Some {| roundFees := JS.zero;
                                   roundRewards := [JS.zero];
                                   roundDelegates :=
                                     [blk_generatorPublicKey block] |})
                 else ret roundSums
               else ret roundSums);
  roundOutsiders ← (if finishRound
                    then
                      rs ← read_roundSums roundSums "roundDelegates";
                      o ← getOutsiders round (roundDelegates rs);
                      ret (Some o)
                    else ret None);
  ret {| backwards := backwards;
         block := block;
         dposV2 := dposv2_firstBlock env <=? blk_height block;
         finishRound := finishRound;
         round := round;
         roundOutsiders := roundOutsiders;
         roundSums := roundSums |}.

(** The try block of [innerTick]. *)
Definition innerTick_try (block : SignedBlockType)
  (dbTransaction : Transaction) (backwards : bool)
  (txGenerator : RoundLogicScope -> M unit) (afterTxPromise : M unit)
  : M unit :=
  appStateLogic_set rounds_isTicking true;;
  roundLogicScope ← innerTick_scope block dbTransaction backwards;
  txGenerator roundLogicScope;;
  afterTxPromise;;
  appStateLogic_set rounds_isTicking false.

(** [e.message || e], the second argument of the warning: reading
    [message] of a caught value that is null or undefined is a TypeError. *)
Definition message_or_self (e : Error) : M LogArg :=
  match e with
  | Rejected Nullish => throw (TypeError_nullish "e" "message")
  | _ => ret (MessageOrSelf e)
  end.

(** The template literal of the warning. *)
Definition innerTick_warning (backwards : bool) : string :=
  ("Error while doing modules.innerTick [backwards="
   ++ (if backwards then "true" else "false") ++ "]")%string.

(** The catch block of [innerTick]. The arguments of the warning are
    evaluated first, so a throw there leaves the rest of the block undone. *)
Definition innerTick_catch (backwards : bool) (e : Error) : M unit :=
  detail ← message_or_self e;
  logger_warn (innerTick_warning backwards) detail;;
  appStateLogic_set rounds_isTicking false;;
  throw e.

Definition innerTick (block : SignedBlockType) (dbTransaction : Transaction)
  (backwards : bool) (txGenerator : RoundLogicScope -> M unit)
  (afterTxPromise : M unit) : M unit :=
  try_catch
    (innerTick_try block dbTransaction backwards txGenerator afterTxPromise)
    (innerTick_catch backwards).

(** [new this.RoundLogic(roundLogicScope, this.slots)]: the round logic is
    built on the scope; its methods are the functions of [RoundLogic]. *)
Definition new_RoundLogic (roundLogicScope : RoundLogicScope) : M unit :=
  effect (NewRoundLogic roundLogicScope).

(** The generator that [backwardTick] passes to [innerTick]. *)
Definition backwardTick_ops (roundLogicScope : RoundLogicScope) : list DBOp :=
  let ops := RoundLogic.mergeBlockGenerator env roundLogicScope in
  let ops := ops ++ RoundLogic.undo env roundLogicScope in
  let ops := ops ++ [RoundLogic.markBlockId roundLogicScope] in
  ops.

Definition backwardTick_txGenerator (transaction : Transaction)
  (roundLogicScope : RoundLogicScope) : M unit :=
  logger_debug "Performing backward tick" NoArg;;
  new_RoundLogic roundLogicScope;;
  dbHelper_performOps env (backwardTick_ops roundLogicScope) transaction.

Definition backwardTick (block : SignedBlockType)
  (previousBlock : SignedBlockType) (transaction : Transaction) : M unit :=
  bus_message (roundBackwardTick block);;
  innerTick block transaction true (backwardTick_txGenerator transaction)
    (ret tt).

(** The generator that [tick] passes to [innerTick]. *)
Definition tick_ops (snapshotRound : bool) (roundLogicScope : RoundLogicScope)
  : list DBOp :=
  let ops := RoundLogic.mergeBlockGenerator env roundLogicScope in
  let ops := ops ++ RoundLogic.apply env roundLogicScope in
  let ops :=
    if finishRound roundLogicScope
    then if snapshotRound
         then ops ++ [RoundLogic.truncateBlocks env roundLogicScope]
         else ops
    else ops in
  let ops := ops ++ [RoundLogic.markBlockId roundLogicScope] in
  ops.

Definition tick_txGenerator (transaction : Transaction)
  (roundLogicScope : RoundLogicScope) : M unit :=
  logger_debug "Performing forward tick" NoArg;;
  new_RoundLogic roundLogicScope;;
  snap1 ← getSnapshotRounds;
  snap2 ← getSnapshotRounds;
  let snapshotRound := (0 <? snap1) && (snap2 =? round roundLogicScope) in
  dbHelper_performOps env (tick_ops snapshotRound roundLogicScope) transaction;;
  if finishRound roundLogicScope
  then o ← bus_message (finishRound_event (round roundLogicScope)); await o
  else ret tt.

Definition tick (block : SignedBlockType) (transaction : Transaction) : M unit :=
  innerTick block transaction false (tick_txGenerator transaction) (ret tt).

End WithEnv.

End RoundsModule.

(* ===================================================================== *)
(** * A small concrete chain, for examples *)
(* ===================================================================== *)

Module Example.

Definition pkA : Buffer := [Byte.x01].
Definition pkB : Buffer := [Byte.x02].
Definition pkC : Buffer := [Byte.xff].

(** An account logic whose addresses are the key followed by "R". *)
Definition logic : IAccountLogic :=
  {| al_generateAddressByPublicKey := fun v =>
       match v with
       | VBuf b => (Buffer_toString_hex b ++ "R")%string
       | VStr s => (s ++ "R")%string
       | _ => "R"%string
       end;
     al_set := fun _ _ => Resolved tt;
     al_get := fun o => Resolved (get_prop o "address");
     al_merge := fun a _ _ => Resolved a |}.

(** Three delegates per round; the blocks of a round were forged by A, B
    and A again, so that C is the outsider. *)
Definition env (fees : string) (bus : BusEvent -> Outcome unit) : Env :=
  {| activeDelegates := 3;
     dposv2_firstBlock := 4;
     RoundsModel_sumRound := fun _ _ _ =>
       Resolved {| fees := fees; rewards := ["10"; "20"; "30"];
                   delegates := [pkA; pkB; pkA] |};
     generateDelegateList := fun _ => Resolved [pkA; pkB; pkC];
     accountLogic := logic;
     performOps_outcome := fun _ _ => Resolved tt;
     bus_outcome := bus |}.

Definition quiet_bus : BusEvent -> Outcome unit := fun _ => Resolved tt.
Definition failing_bus : BusEvent -> Outcome unit :=
  fun ev => match ev with
            | finishRound_event _ => Failed "listener failed"
            | _ => Resolved tt
            end.

Definition account (b : Z) : MemAccounts :=
  {| balance := b; u_balance := b; vote := 7; votesWeight := 7;
     producedblocks := 0; missedblocks := 0; acc_fees := 0; acc_rewards := 0 |}.

Definition state (snap : option Z) : State :=
  {| appState := {| isLoaded := true; isTicking := false; snapshot := snap |};
     accounts := <["01R" := account 100]> (<["02R" := account 200]>
                   (<["ffR" := account 300]> ∅));
     effects := [] |}.

Definition blk (h : Z) (pk : Buffer) : SignedBlockType :=
  {| blk_id := "b"; blk_height := h; blk_generatorPublicKey := pk;
     blk_reward := 10; blk_totalFee := 5 |}.

End Example.

(* ===================================================================== *)
(** * Definitions used to state the properties *)
(* ===================================================================== *)

(** ** The runs of the rounds module, in closed form

    For each function of the module, what it returns and the state it
    leaves, by cases on what the collaborators answer. The lemmas further
    down prove that the functions above compute exactly these. *)

(** The conversion that [sumRound] applies to the answer of the store. *)
Definition convertSums (res : RawRoundSums) : RoundSums :=
  {| roundFees := JS.Math_floor (JS.parseFloat (fees res));
     roundRewards :=
       map (fun reward => JS.Math_floor (JS.parseFloat reward)) (rewards res);
     roundDelegates := delegates res |}.

Definition genesisSums (block : SignedBlockType) : RoundSums :=
  {| roundFees := JS.zero; roundRewards := [JS.zero];
     roundDelegates := [blk_generatorPublicKey block] |}.

(** [roundSums] after the correction at height 1. *)
Definition correctedSums (block : SignedBlockType) (sums : RoundSums)
  : RoundSums :=
  if (blk_height block =? 1) && negb (Nat.eqb (length (roundDelegates sums)) 1)
  then genesisSums block else sums.

Definition outsidersOf (env : Env) (slate ds : list Buffer) : list address :=
  map (RoundLogic.addressOf env)
    (List.filter
       (fun pk => indexOf (map Buffer_toString_hex ds) (Buffer_toString_hex pk) =? -1)
       slate).

Definition roundOfBlock (env : Env) (block : SignedBlockType) : Z :=
  RoundsLogic.calcRound (activeDelegates env) (blk_height block).

Definition finishing (env : Env) (block : SignedBlockType) : bool :=
  negb (RoundsLogic.calcRound (activeDelegates env) (blk_height block + 1)
        =? roundOfBlock env block)
  || (blk_height block =? 1).

Definition scopeOf (env : Env) (block : SignedBlockType) (bw : bool)
  (sums : option RoundSums) (outs : option (list address)) : RoundLogicScope :=
  {| backwards := bw;
     block := block;
     dposV2 := dposv2_firstBlock env <=? blk_height block;
     finishRound := finishing env block;
     round := roundOfBlock env block;
     roundOutsiders := outs;
     roundSums := sums |}.

Definition afterSum (env : Env) (block : SignedBlockType) (tx : Transaction)
  (s : State) : State :=
  log_effect (SumRoundQuery (activeDelegates env) (roundOfBlock env block) tx)
    (log_effect
       (Logged "debug" "Summing round" (NumArg (roundOfBlock env block))) s).

Definition afterList (env : Env) (block : SignedBlockType) (tx : Transaction)
  (s : State) : State :=
  log_effect
    (DelegateListQuery
       (RoundsLogic.lastInRound (activeDelegates env) (roundOfBlock env block)))
    (afterSum env block tx s).

Definition scope_run (env : Env) (block : SignedBlockType) (tx : Transaction)
  (bw : bool) (s : State) : Result RoundLogicScope * State :=
  if finishing env block then
    match RoundsModel_sumRound env (activeDelegates env)
            (roundOfBlock env block) tx with
    | Failed msg => (Err (Rejected msg), afterSum env block tx s)
    | Resolved res =>
        let sums := correctedSums block (convertSums res) in
        match generateDelegateList env
                (RoundsLogic.lastInRound (activeDelegates env)
                   (roundOfBlock env block)) with
        | Failed msg => (Err (Rejected msg), afterList env block tx s)
        | Resolved slate =>
            (Ok (scopeOf env block bw (Some sums)
                   (Some (outsidersOf env slate (roundDelegates sums)))),
             afterList env block tx s)
        end
    end
  else (Ok (scopeOf env block bw None None), s).

(** The state with the ticking flag raised, lowered, and lowered by the
    catch block. *)
Definition raised (s : State) : State :=
  log_effect (AppStateSet rounds_isTicking true) (set_key rounds_isTicking true s).

Definition lowered (s : State) : State :=
  log_effect (AppStateSet rounds_isTicking false)
    (set_key rounds_isTicking false s).

Definition caught (bw : bool) (e : Error) (s : State) : State :=
  lowered
    (log_effect
       (Logged "warn" (RoundsModule.innerTick_warning bw) (MessageOrSelf e)) s).

(** What [innerTick] throws when its try block threw [e]: [e] again, or
    the TypeError of the catch block when [e] is null or undefined. *)
Definition rethrown (e : Error) : Error :=
  match e with
  | Rejected Nullish => TypeError_nullish "e" "message"
  | _ => e
  end.

(** The run of the catch block. *)
Definition catch_run (bw : bool) (e : Error) (s : State) : Result unit * State :=
  match e with
  | Rejected Nullish => (Err (rethrown e), s)
  | _ => (Err (rethrown e), caught bw e s)
  end.

Definition snapshotRoundAt (s : State) (sc : RoundLogicScope) : bool :=
  (0 <? default 0 (snapshot (appState s)))
  && (default 0 (snapshot (appState s)) =? round sc).

Definition forward_run (env : Env) (tx : Transaction) (sc : RoundLogicScope)
  (s : State) : Result unit * State :=
  let ops := RoundsModule.tick_ops env (snapshotRoundAt s sc) sc in
  let s1 := log_effect (PerformOps ops tx)
              (log_effect (NewRoundLogic sc)
                 (log_effect (Logged "debug" "Performing forward tick" NoArg) s)) in
  match performOps_outcome env ops tx with
  | Failed msg => (Err (Rejected msg), s1)
  | Resolved _ =>
      let s2 := map_accounts (exec_ops ops) s1 in
      if finishRound sc then
        let s3 := log_effect (BusMessage (finishRound_event (round sc))) s2 in
        match bus_outcome env (finishRound_event (round sc)) with
        | Resolved _ => (Ok tt, s3)
        | Failed msg => (Err (Rejected msg), s3)
        end
      else (Ok tt, s2)
  end.

Definition backward_run (env : Env) (tx : Transaction) (sc : RoundLogicScope)
  (s : State) : Result unit * State :=
  let ops := RoundsModule.backwardTick_ops env sc in
  let s1 := log_effect (PerformOps ops tx)
              (log_effect (NewRoundLogic sc)
                 (log_effect (Logged "debug" "Performing backward tick" NoArg) s)) in
  match performOps_outcome env ops tx with
  | Failed msg => (Err (Rejected msg), s1)
  | Resolved _ => (Ok tt, map_accounts (exec_ops ops) s1)
  end.

(** ** The words of the specification *)

#[global] Instance byte_eq_decision : EqDecision Byte.byte := Byte.byte_eq_dec.

(** The round arithmetic as the specification names it. *)
Definition round_of (N h : Z) : Z := RoundsLogic.calcRound N h.
Definition last_in_round (N r : Z) : Z := RoundsLogic.lastInRound N r.
Definition is_round_end (N h : Z) : bool :=
  negb (round_of N h =? round_of N (h + 1)) || (h =? 1).

(** Whether a call ended in the TypeError of a property read on round
    sums that are null. *)
Definition is_null_read {A : Type} (r : Result A) : bool :=
  match r with
  | Err (TypeError_null _) => true
  | _ => false
  end.

(** The values written to 'rounds.isTicking', in order. *)
Definition flag_writes (h : list Effect) : list bool :=
  omap (fun e => match e with
                 | AppStateSet rounds_isTicking v => Some v
                 | _ => None
                 end) h.

(** How a call of [innerTick] ends, given how its try block ended. When
    the try block threw null or undefined, the catch block throws at its
    first statement, the read of [e.message]: the flag was written once and
    is left up, and the TypeError of that read is what the caller gets.
    Otherwise the last effect lowers the flag, which was written twice, and
    the call ends as the try block did. *)
Definition bracketed (r : Result unit * State) (tried : Result unit) : Prop :=
  match tried with
  | Err (Rejected Nullish) =>
      flag_writes (history (state_of r)) = [true]
      /\ isTicking (appState (state_of r)) = true
      /\ outcome_of r = Err (TypeError_nullish "e" "message")
  | _ =>
      last (history (state_of r)) = Some (AppStateSet rounds_isTicking false)
      /\ flag_writes (history (state_of r)) = [true; false]
      /\ isTicking (appState (state_of r)) = false
      /\ outcome_of r = tried
  end.

(** An environment whose round query rejects with the given reason; the
    other collaborators answer. *)
Definition rejecting_env (logic : IAccountLogic) (reason : Reason) : Env :=
  {| activeDelegates := 3; dposv2_firstBlock := 4;
     RoundsModel_sumRound := fun _ _ _ => Failed reason;
     generateDelegateList := fun _ => Resolved [];
     accountLogic := logic;
     performOps_outcome := fun _ _ => Resolved tt;
     bus_outcome := fun _ => Resolved tt |}.

(** The state with an empty log: the history of a call that starts there
    is the history of that call alone. *)
Definition clear_log (s : State) : State :=
  {| appState := appState s; accounts := accounts s; effects := [] |}.

Definition is_performOps (e : Effect) : bool :=
  match e with PerformOps _ _ => true | _ => false end.

(** A tick in either direction. *)
Definition run_tick (env : Env) (bw : bool) (block previousBlock : SignedBlockType)
  (tx : Transaction) : M unit :=
  if bw then RoundsModule.backwardTick env block previousBlock tx
  else RoundsModule.tick env block tx.



(** ** The scope of a block and sequences of ticks *)




Fixpoint ticks (env : Env) (bs : list SignedBlockType) (tx : Transaction)
  : M unit :=
  match bs with
  | [] => ret tt
  | b :: bs' => RoundsModule.tick env b tx;; ticks env bs' tx
  end.

(** [prev] gives the block that the pipeline passes as [previousBlock]. *)
Fixpoint backwardTicks (env : Env) (prev : SignedBlockType -> SignedBlockType)
  (bs : list SignedBlockType) (tx : Transaction) : M unit :=
  match bs with
  | [] => ret tt
  | b :: bs' =>
      RoundsModule.backwardTick env b (prev b) tx;; backwardTicks env prev bs' tx
  end.

(** ** Reading the log of a call *)

(** The messages handed to the bus, in order. *)
Definition bus_messages (h : list Effect) : list BusEvent :=
  omap (fun e => match e with
                 | BusMessage ev => Some ev
                 | _ => None
                 end) h.

(** The reads of the block store and of the delegates module, in order. *)
Definition is_query (e : Effect) : bool :=
  match e with
  | SumRoundQuery _ _ _ | DelegateListQuery _ => true
  | _ => false
  end.

Definition queries (h : list Effect) : list Effect := List.filter is_query h.

(** What was logged at level warn, in order: the message and the second
    argument of each call. *)
Definition warnings (h : list Effect) : list (string * LogArg) :=
  omap (fun e => match e with
                 | Logged level message arg =>
                     if String.eqb level "warn" then Some (message, arg)
                     else None
                 | _ => None
                 end) h.

Definition is_newRoundLogic (e : Effect) : bool :=
  match e with NewRoundLogic _ => true | _ => false end.

(** The state with other values of 'rounds.isLoaded' and
    'rounds.isTicking'. *)
Definition with_flags (loaded ticking : bool) (s : State) : State :=
  {| appState := {| isLoaded := loaded; isTicking := ticking;
                    snapshot := snapshot (appState s) |};
     accounts := accounts s;
     effects := effects s |}.

(** The environment with another bus. *)
Definition with_bus (env : Env) (bus : BusEvent -> Outcome unit) : Env :=
  {| activeDelegates := activeDelegates env;
     dposv2_firstBlock := dposv2_firstBlock env;
     RoundsModel_sumRound := RoundsModel_sumRound env;
     generateDelegateList := generateDelegateList env;
     accountLogic := accountLogic env;
     performOps_outcome := performOps_outcome env;
     bus_outcome := bus |}.

(* ===================================================================== *)
(** * modules/accounts.ts: the reading entry points *)
(* ===================================================================== *)

Module AccountsModule_reads.
Section WithAccountLogic.

Variable accountLogic : IAccountLogic.

(** [accountLogic.get(filter, fields)] with a list of fields, and
    [accountLogic.getAll(filter, fields)]. *)
Variable al_get_fields : gmap string value -> list string -> Outcome value.
Variable al_getAll : gmap string value -> list string -> Outcome (list value).

(** [this.accountLogic.get(filter, fields)], where [fields] may be
    undefined: the call is then the call with the filter alone. *)
Definition accountLogic_get (filter : gmap string value)
  (fields : option (list string)) : Outcome value :=
  match fields with
  | None => al_get accountLogic filter
  | Some fs => al_get_fields filter fs
  end.

(** The filter is changed in place, so the object as the caller sees it
    afterwards is returned with the promise. *)
Definition getAccount (filter : gmap string value)
  (fields : option (list string)) : Outcome value * gmap string value :=
  let filter1 :=
    if truthy (get_prop filter "publicKey")
    then
      let filter' :=
        <["address" :=
            VStr (al_generateAddressByPublicKey accountLogic
                    (get_prop filter "publicKey"))]> filter in
      delete "publicKey" filter'
    else filter in
  (accountLogic_get filter1 fields, filter1).

Definition getAccounts (filter : gmap string value) (fields : list string)
  : Outcome (list value) * gmap string value :=
  (al_getAll filter fields, filter).

End WithAccountLogic.

End AccountsModule_reads.

(* ===================================================================== *)
(** * apis/utils/requestLogger.ts *)
(* ===================================================================== *)

Module RequestLogger.

(** [toLowerCase] and [startsWith] on strings of ASCII characters, which
    is what the method and the url of a request are made of. *)
Definition lower_char (c : ascii) : ascii :=
  let n := nat_of_ascii c in
  if (65 <=? n)%nat && (n <=? 90)%nat then ascii_of_nat (n + 32) else c.

Fixpoint toLowerCase (s : string) : string :=
  match s with
  | String c s' => String (lower_char c) (toLowerCase s')
  | EmptyString => EmptyString
  end.

Definition startsWith (s prefix : string) : bool := String.prefix prefix s.

(** [appConfig.requestLogger]; [minHeight] may be left out. *)
Record RequestLoggerConfig := {
  enabled : bool;
  logFileName : string;
  cfg_minHeight : option Z;
}.

(** What the logger reads of a request. *)
Record Request := {
  method : string;
  url : string;
  body : string;
  headers : list (string * string);
  query : list (string * string);
}.

Record LineReq := {
  lr_body : string;
  lr_headers : list (string * string);
  lr_query : list (string * string);
  lr_url : string;
}.

Record LineObj := {
  lo_height : Z;
  lo_now : Z;
  lo_req : LineReq;
}.

(** A write stream, known by the file it appends to. *)
Definition WriteStream : Type := string.

(** The private fields; a field that was never assigned is undefined. *)
Record Fields := {
  isEnabled : bool;
  logStream : option WriteStream;
  minHeight : option Z;
}.

(** The calls that the logger makes. The second argument of
    [logger.error] is [err.stack], the stack of the caught error; the error
    is known by its message. *)
Inductive Call :=
| LoggerError (message : string) (stack_of : string)
| StreamWrite (stream : WriteStream) (line : string)
| Next.

Definition is_write (c : Call) : bool :=
  match c with StreamWrite _ _ => true | _ => false end.

Definition is_next (c : Call) : bool :=
  match c with Next => true | _ => false end.

Section WithNode.

(** [fs.createWriteStream(path, {flags: 'a'})], [JSON.stringify] and
    [Date.now()]. *)
Variable fs_createWriteStream : string -> Outcome WriteStream.
Variable JSON_stringify : LineObj -> string.
Variable Date_now : Z.

(** The constructor: the fields it leaves and what it calls, or what it
    throws. [this_appConfig] and [this_logger] are what the fields
    [this.appConfig] and [this.logger] hold while the constructor runs. They
    are injected properties, which the container sets on the object once
    its constructor has returned: inside the constructor they are still
    undefined, and a property read on undefined is a TypeError. *)
Definition constructor (this_appConfig : option RequestLoggerConfig)
  (this_logger : bool) : Result Fields * list Call :=
  match this_appConfig with
  | None => (Err (TypeError_nullish "this.appConfig" "requestLogger"), [])
  | Some appConfig =>
      let isEnabled0 := enabled appConfig in
      if isEnabled0 then
        let minHeight1 := Some (default 0 (cfg_minHeight appConfig)) in
        match fs_createWriteStream (logFileName appConfig) with
        | Resolved stream =>
            (Ok {| isEnabled := isEnabled0; logStream := Some stream;
                   minHeight := minHeight1 |}, [])
        | Failed err =>
            if negb this_logger
            then (Err (TypeError_nullish "this.logger" "error"), [])
            else
              match err with
              | Nullish => (Err (TypeError_nullish "err" "stack"), [])
              | WithMessage err_message =>
                  (Ok {| isEnabled := false; logStream := None;
                         minHeight := minHeight1 |},
                   [LoggerError "requestLogger: error creating write stream"
                      err_message])
              end
        end
      else
        (Ok {| isEnabled := isEnabled0; logStream := None; minHeight := None |},
         [])
  end.

Definition valid_prefixes : list string :=
  ["/peer/signatures"; "/peer/transactions"; "/peer/blocks"]%string.

(** [lastBlockHeight] is [this.blocksModule.lastBlock.height]. A
    comparison with an undefined [minHeight] is false. *)
Definition shouldLog (this : Fields) (lastBlockHeight : Z) (req : Request)
  : bool :=
  if negb (isEnabled this)
     || match minHeight this with
        | Some m => lastBlockHeight <? m
        | None => false
        end
     || negb (String.eqb (toLowerCase (method req)) "post")
  then false
  else
    let validUrls :=
      List.filter (fun prefix => startsWith (url req) prefix) valid_prefixes in
    Nat.eqb (length validUrls) 1.

Definition log (this : Fields) (lastBlockHeight : Z) (req : Request)
  : Result unit * list Call :=
  let lineObj :=
    {| lo_height := lastBlockHeight;
       lo_now := Date_now;
       lo_req := {| lr_body := body req; lr_headers := headers req;
                    lr_query := query req; lr_url := url req |} |} in
  let lineStr := (JSON_stringify lineObj ++ String "010" EmptyString)%string in
  match logStream this with
  | Some stream => (Ok tt, [StreamWrite stream lineStr])
  | None => (Err (TypeError_nullish "this.logStream" "write"), [])
  end.

Definition use (this : Fields) (lastBlockHeight : Z) (request : Request)
  : Result unit * list Call :=
  if shouldLog this lastBlockHeight request
  then
    match log this lastBlockHeight request with
    | (Ok _, calls) => (Ok tt, calls ++ [Next])
    | (Err e, calls) => (Err e, calls)
    end
  else (Ok tt, [Next]).

End WithNode.

End RequestLogger.

(* ===================================================================== *)
(** * apis/transportv2API.ts *)
(* ===================================================================== *)

Module TransportV2API.

(** ** The ids of [getBlocksCommon] *)

(** The first step, [ids.replace] with the class of the two quote
    characters, all matches, and the empty replacement: every single and
    every double quote is removed. *)
Definition is_quote (c : ascii) : bool :=
  (Ascii.eqb c "039" || Ascii.eqb c "034")%char.

Fixpoint remove_quotes (s : string) : string :=
  match s with
  | String c s' =>
      if is_quote c then remove_quotes s' else String c (remove_quotes s')
  | EmptyString => EmptyString
  end.

(** [s.split(',')]: the pieces between the commas; a string without a
    comma, the empty one too, is one piece. *)
Fixpoint split_comma (s : string) : list string :=
  match s with
  | String c s' =>
      if Ascii.eqb c ","%char then EmptyString :: split_comma s'
      else match split_comma s' with
           | piece :: pieces => String c piece :: pieces
           | [] => [String c EmptyString]
           end
  | EmptyString => [EmptyString]
  end.

Definition is_digit (c : ascii) : bool :=
  match JS.digit_of_char c with
  | Some _ => true
  | None => false
  end.

Fixpoint all_digits (s : string) : bool :=
  match s with
  | String c s' => is_digit c && all_digits s'
  | EmptyString => true
  end.

(** [/^[0-9]+$/.test(id)] *)
Definition numeric (id : string) : bool :=
  match id with
  | EmptyString => false
  | _ => all_digits id
  end.

Definition escapedIds (ids : string) : list string :=
  List.filter numeric (split_comma (remove_quotes ids)).

(** ** Errors, requests and messages *)

(** What a handler throws: an [APIError] with its status code, or another
    error. *)
Inductive Thrown :=
| APIError (message : string) (statusCode : Z)
| Other (e : Error).

Inductive Answer (A : Type) :=
| Returned (a : A)
| Threw (t : Thrown).
Arguments Returned {A} a.
Arguments Threw {A} t.

(** What the handlers read of a request. *)
Record Request := {
  req_body : value;
  req_ip : string;
  req_headers_port : option string;
}.

(** [parseInt(s, 10)]: the sign and the run of decimal digits at the
    start of the string, NaN when there is none; an undefined header reads
    as NaN. *)
Definition parseInt10 (s : option string) : JS.number :=
  match s with
  | Some s' => JS.parseFloat s'
  | None => JS.NaN
  end.

(** [{ transaction: Long, signature?: Buffer }]; a Long by its value. *)
Record Signature := {
  sig_transaction : Z;
  sig_signature : option Buffer;
}.

(** [{ signatures?: Signature[], signature?: Signature }] *)
Record PostSignatures := {
  ps_signatures : option (list Signature);
  ps_signature : option Signature;
}.

Section WithTypes.

(** The objects that the handlers only pass on: transactions and blocks
    as the wire has them, as the logic has them, and as the transport module
    takes them; peers. *)
Context {BytesTransaction BaseTransaction TransportTransaction : Type}.
Context {BytesBlock Block PeerType : Type}.

(** The message of [postTransactions]: one transaction, or a list. A
    field that is missing or null is [None]. *)
Record PostTransactions := {
  pt_transaction : option BytesTransaction;
  pt_transactions : option (list BytesTransaction);
}.

(** The message of [postBlock]. *)
Record PostBlock := {
  pb_block : option BytesBlock;
}.

(** The payloads that the handlers answer with. *)
Inductive Payload :=
| Success
| BlockResponse (success : bool) (blockId : string)
| Common (common : option BytesBlock).

(** The calls to collaborators that a handler makes, as far as the
    properties speak about them. *)
Inductive Call :=
| peersModule_remove (ip : string) (port : JS.number)
| BlocksModel_findOne (ids : list string)
| bus_message_receiveBlock (b : Block)
| transportModule_receiveTransactions
    (txs : list TransportTransaction) (peer : PeerType) (broadcast : bool)
| transportModule_receiveSignatures (sigs : list (string * string))
| protoBuf_encode (payload : Payload) (pbNamespace : string)
    (pbMessageType : option string).

(** The collaborators of the controller. *)
Record Node := {
  decode_signatures : Buffer -> string -> option string -> Outcome PostSignatures;
  decode_transactions :
    Buffer -> string -> option string -> Outcome PostTransactions;
  decode_block : Buffer -> string -> option string -> Outcome PostBlock;
  protoBuf_validate : Payload -> string -> option string -> bool;
  protoBuf_lastError : Payload -> string -> option string -> string;
  encoded : Payload -> string -> option string -> Buffer;
  assertValidSchema_signatures : list Signature -> Outcome unit;
  receiveSignatures_outcome : list (string * string) -> Outcome unit;
  peersLogic_create : string -> JS.number -> PeerType;
  transactionLogic_fromBytes : BytesTransaction -> Outcome BaseTransaction;
  toTransportTransaction : BaseTransaction -> Outcome TransportTransaction;
  receiveTransactions_outcome :
    list TransportTransaction -> PeerType -> bool -> Outcome unit;
  blockLogic_fromBytes : option BytesBlock -> Outcome Block;
  blockLogic_objectNormalize : Block -> Outcome Block;
  block_id : Block -> string;
  receiveBlock_outcome : Block -> Outcome unit;
  findOne_outcome : list string -> Outcome (option Block);
  generateBytesBlock : Block -> Outcome BytesBlock;
}.

(** ** A handler runs: what it answers and what it called, oldest first *)

Definition H (A : Type) : Type := Answer A * list Call.

Definition h_ret {A : Type} (a : A) : H A := (Returned a, []).

Definition h_bind {A B : Type} (m : H A) (k : A -> H B) : H B :=
  match m with
  | (Returned a, calls) =>
      let '(r, calls') := k a in (r, calls ++ calls')
  | (Threw t, calls) => (Threw t, calls)
  end.

Definition h_throw {A : Type} (t : Thrown) : H A := (Threw t, []).

Definition h_call (c : Call) : H unit := (Returned tt, [c]).

(** [try { body } catch (e) { handler(e) }] *)
Definition h_try {A : Type} (body : H A) (handler : Thrown -> H A) : H A :=
  match body with
  | (Returned a, calls) => (Returned a, calls)
  | (Threw t, calls) =>
      let '(r, calls') := handler t in (r, calls ++ calls')
  end.

(** Waiting for a collaborator, or calling one that may throw. *)
Definition h_await {A : Type} (o : Outcome A) : H A :=
  match o with
  | Resolved a => h_ret a
  | Failed msg => h_throw (Other (Rejected msg))
  end.

(** [transactions.map(f)] with an [f] that may throw: the first failure
    ends the mapping. *)
Fixpoint h_map {A B : Type} (f : A -> H B) (l : list A) : H (list B) :=
  match l with
  | [] => h_ret []
  | a :: l' => h_bind (f a) (fun b => h_bind (h_map f l') (fun bs => h_ret (b :: bs)))
  end.

Variable node : Node.

(** ** The two helpers *)

Definition show_type (pbMessageType : option string) : string :=
  match pbMessageType with
  | Some t => t
  | None => "undefined"
  end.

Definition parseRequest {T : Type}
  (decode : Buffer -> string -> option string -> Outcome T)
  (body : value) (pbNamespace : string) (pbMessageType : option string) : H T :=
  match body with
  | VBuf b =>
      match decode b pbNamespace pbMessageType with
      | Resolved retVal => h_ret retVal
      | Failed _ =>
          h_throw
            (Other
               (JsError
                  ("Invalid binary data for message " ++ pbNamespace ++ " "
                   ++ show_type pbMessageType)))
      end
  | _ => h_throw (Other (JsError "No binary data in request body"))
  end.

Definition getResponse (payload : Payload) (pbNamespace : string)
  (pbMessageType : option string) : H Buffer :=
  if protoBuf_validate node payload pbNamespace pbMessageType
  then
    h_bind (h_call (protoBuf_encode payload pbNamespace pbMessageType))
      (fun _ => h_ret (encoded node payload pbNamespace pbMessageType))
  else
    h_throw
      (Other
         (JsError
            ("Failed to encode response - "
             ++ protoBuf_lastError node payload pbNamespace pbMessageType))).

(** ** The handlers *)

(** [sigEl.signature.toString('hex')]: reading [toString] of an undefined
    signature is a TypeError. *)
Definition finalSig (sigEl : Signature) : H (string * string) :=
  match sig_signature sigEl with
  | Some signature =>
      h_ret (Buffer_toString_hex signature, JS.decimal (sig_transaction sigEl))
  | None => h_throw (Other (TypeError_nullish "sigEl.signature" "toString"))
  end.

Definition postSignatures (body : value) : H Buffer :=
  h_bind (parseRequest (decode_signatures node) body "transportSignatures"
            (Some "postSignatures"%string))
    (fun obj =>
       let signatures := [] in
       let signatures :=
         match ps_signatures obj with
         | Some l => signatures ++ l
         | None => signatures
         end in
       let signatures :=
         match ps_signature obj with
         | Some s => signatures ++ [s]
         | None => signatures
         end in
       h_bind (h_await (assertValidSchema_signatures node signatures))
         (fun _ =>
            h_bind (h_map finalSig signatures)
              (fun finalSigs =>
                 h_bind (h_call (transportModule_receiveSignatures finalSigs))
                   (fun _ =>
                      h_bind (h_await (receiveSignatures_outcome node finalSigs))
                        (fun _ => getResponse Success "APISuccess" None))))).

(** The arrow function that [postTransactions] maps over the
    transactions of the request. *)
Definition toTransport (tx : BytesTransaction) : H TransportTransaction :=
  h_bind (h_await (transactionLogic_fromBytes node tx))
    (fun base => h_await (toTransportTransaction node base)).

Definition postTransactions (req : Request) : H Buffer :=
  h_bind (parseRequest (decode_transactions node) (req_body req)
            "transportTransactions" None)
    (fun requestData =>
       let transactions :=
         match pt_transaction requestData with
         | Some transaction => [transaction]
         | None =>
             match pt_transactions requestData with
             | Some l => l
             | None => []
             end
         end in
       let thePeer :=
         peersLogic_create node (req_ip req)
           (parseInt10 (req_headers_port req)) in
       h_bind
         (if (0 <? length transactions)%nat
          then
            h_bind (h_map toTransport transactions)
              (fun txs =>
                 h_bind
                   (h_call (transportModule_receiveTransactions txs thePeer true))
                   (fun _ =>
                      h_await (receiveTransactions_outcome node txs thePeer true)))
          else h_ret tt)
         (fun _ => getResponse Success "APISuccess" None)).

(** The body of [getBlocksCommon]; it runs once the schema has accepted
    [ids], which the decorators of the method see to. *)
Definition getBlocksCommon (ids : string) (req : Request) : H Buffer :=
  let excapedIds := escapedIds ids in
  if Nat.eqb (length excapedIds) 0 || (10 <? length excapedIds)%nat
  then
    h_bind
      (h_call
         (peersModule_remove (req_ip req) (parseInt10 (req_headers_port req))))
      (fun _ => h_throw (APIError "Invalid block id sequence" 200))
  else
    h_bind (h_call (BlocksModel_findOne excapedIds))
      (fun _ =>
         h_bind (h_await (findOne_outcome node excapedIds))
           (fun common =>
              h_bind
                (match common with
                 | Some b =>
                     h_bind (h_await (generateBytesBlock node b))
                       (fun bytes => h_ret (Some bytes))
                 | None => h_ret None
                 end)
                (fun bytesBlock =>
                   getResponse (Common bytesBlock) "transportBlocks"
                     (Some "commonBlock"%string)))).

Definition postBlock (req : Request) : H Buffer :=
  h_bind
    (h_try
       (h_bind (parseRequest (decode_block node) (req_body req) "transportBlocks"
                  (Some "transportBlock"%string))
          (fun requestData =>
             h_bind (h_await (blockLogic_fromBytes node (pb_block requestData)))
               (fun b => h_await (blockLogic_objectNormalize node b))))
       (fun e =>
          h_bind
            (h_call
               (peersModule_remove (req_ip req)
                  (parseInt10 (req_headers_port req))))
            (fun _ => h_throw e)))
    (fun normalizedBlock =>
       h_bind (h_call (bus_message_receiveBlock normalizedBlock))
         (fun _ =>
            h_bind (h_await (receiveBlock_outcome node normalizedBlock))
              (fun _ =>
                 getResponse (BlockResponse true (block_id node normalizedBlock))
                   "transportBlocks" (Some "transportBlockResponse"%string)))).

End WithTypes.

Arguments Node : clear implicits.
Arguments Call : clear implicits.
Arguments Payload : clear implicits.
Arguments PostTransactions : clear implicits.
Arguments PostBlock : clear implicits.
Arguments H : clear implicits.

End TransportV2API.

(** ** Reading the calls of a handler *)

(** An id between quotes. *)
Definition quoted (q : ascii) (id : string) : string :=
  String q (id ++ String q EmptyString).

Section TransportCalls.

Context {TransportTransaction BytesBlock Block PeerType : Type}.

Definition is_remove
  (c : TransportV2API.Call TransportTransaction BytesBlock Block PeerType) : bool :=
  match c with
  | TransportV2API.peersModule_remove _ _ => true
  | _ => false
  end.

Definition is_receiveBlock
  (c : TransportV2API.Call TransportTransaction BytesBlock Block PeerType) : bool :=
  match c with
  | TransportV2API.bus_message_receiveBlock _ => true
  | _ => false
  end.

Definition is_encode
  (c : TransportV2API.Call TransportTransaction BytesBlock Block PeerType) : bool :=
  match c with
  | TransportV2API.protoBuf_encode _ _ _ => true
  | _ => false
  end.

(** A step that encodes nothing. *)
Definition quiet {A : Type}
  (m : TransportV2API.H TransportTransaction BytesBlock Block PeerType A)
  : Prop :=
  forall c, In c (snd m) -> is_encode c = false.

End TransportCalls.

(** A node for examples: transactions and blocks are strings, every
    message holds what the body spells, a transaction without bytes does not
    decode, and the bus refuses every block; nothing else fails. *)
Definition example_node
  : TransportV2API.Node string string string string string (string * JS.number) :=
  {| TransportV2API.decode_signatures := fun b _ _ =>
       Resolved
         {| TransportV2API.ps_signatures :=
              Some [{| TransportV2API.sig_transaction := 7;
                       TransportV2API.sig_signature := Some b |}];
            TransportV2API.ps_signature :=
              Some {| TransportV2API.sig_transaction := 8;
                      TransportV2API.sig_signature := Some b |} |};
     TransportV2API.decode_transactions := fun b _ _ =>
       Resolved
         {| TransportV2API.pt_transaction := Some (Buffer_toString_hex b);
            TransportV2API.pt_transactions := Some ["aa"; "bb"]%string |};
     TransportV2API.decode_block := fun b _ _ =>
       Resolved {| TransportV2API.pb_block := Some (Buffer_toString_hex b) |};
     TransportV2API.protoBuf_validate := fun _ _ _ => true;
     TransportV2API.protoBuf_lastError := fun _ _ _ => EmptyString;
     TransportV2API.encoded := fun _ _ _ => [];
     TransportV2API.assertValidSchema_signatures := fun _ => Resolved tt;
     TransportV2API.receiveSignatures_outcome := fun _ => Resolved tt;
     TransportV2API.peersLogic_create := fun ip port => (ip, port);
     TransportV2API.transactionLogic_fromBytes := fun tx =>
       if String.eqb tx EmptyString then Failed "no bytes" else Resolved tx;
     TransportV2API.toTransportTransaction := fun tx => Resolved tx;
     TransportV2API.receiveTransactions_outcome := fun _ _ _ => Resolved tt;
     TransportV2API.blockLogic_fromBytes := fun b =>
       match b with
       | Some b' => Resolved b'
       | None => Failed "no block"
       end;
     TransportV2API.blockLogic_objectNormalize := fun b => Resolved b;
     TransportV2API.block_id := fun b => b;
     TransportV2API.receiveBlock_outcome := fun _ => Failed "block refused";
     TransportV2API.findOne_outcome := fun _ => Resolved None;
     TransportV2API.generateBytesBlock := fun b => Resolved b |}.

Definition example_request (body : value) : TransportV2API.Request :=
  {| TransportV2API.req_body := body;
     TransportV2API.req_ip := "10.0.0.1";
     TransportV2API.req_headers_port := Some "5555"%string |}.

(** A handler answers with the encoding of a payload that passed
    validation, and encodes nothing else. *)
Definition validated_answer
  {BytesTransaction BaseTransaction TransportTransaction BytesBlock Block
   PeerType : Type}
  (node : TransportV2API.Node BytesTransaction BaseTransaction
            TransportTransaction BytesBlock Block PeerType)
  (r : TransportV2API.H TransportTransaction BytesBlock Block PeerType Buffer)
  : Prop :=
  (forall buf,
     fst r = TransportV2API.Returned buf ->
     exists payload ns ty,
       last (snd r) = Some (TransportV2API.protoBuf_encode payload ns ty)
       /\ TransportV2API.protoBuf_validate node payload ns ty = true
       /\ buf = TransportV2API.encoded node payload ns ty)
  /\ (forall payload ns ty,
        In (TransportV2API.protoBuf_encode payload ns ty) (snd r) ->
        TransportV2API.protoBuf_validate node payload ns ty = true
        /\ fst r = TransportV2API.Returned
                     (TransportV2API.encoded node payload ns ty)).

(** ** How far a number is from the integer it stands for *)

(** The number denotes an integer that is off the given one by at most
    [slack], and by at most the 2^53-th part of its size. *)
Definition near (slack v : Z) (x : JS.number) : Prop :=
  exists w,
    JS.to_Z x = Some w
    /\ Z.abs (w - v) <= slack
    /\ 2 ^ 53 * Z.abs (w - v) <= Z.abs v.

(** What the record holds after [k] shifts of [P]: the quotient, whether
    the remainder reaches one half of the divisor, and whether it differs
    from nothing and from that half. *)
Definition shifted (P k : Z) (mrs : shr_record) : Prop :=
  shr_m mrs = P / 2 ^ k
  /\ shr_r mrs = (2 ^ k <=? 2 * (P mod 2 ^ k))
  /\ shr_s mrs = negb ((2 * (P mod 2 ^ k)) mod 2 ^ k =? 0).

(* ===================================================================== *)
(** * Properties *)
(* ===================================================================== *)


(* --------------------------------------------------------------------- *)
(** ** Facts about the numbers *)
(* --------------------------------------------------------------------- *)

Section NumberFacts.

Import JS.

Lemma digits2_pos_size (p : positive) : digits2_pos p = Pos.size p.
Proof. induction p as [p IH | p IH |]; simpl; congruence. Qed.

Lemma digits2_pos_le53 (p : positive) :
  Z.pos p < two53 -> Z.pos (digits2_pos p) <= 53.
Proof.
  intros Hp. rewrite digits2_pos_size.
  destruct (Z_le_gt_dec (Z.pos (Pos.size p)) 53) as [Hle | Hgt]; [exact Hle |].
  exfalso.
  pose proof (Pos.size_le p) as Hs.
  assert (Hpow : 2 ^ 54 <= 2 ^ Z.pos (Pos.size p)).
  { apply Z.pow_le_mono_r; lia. }
  assert (Hz : Z.pos (2 ^ Pos.size p) <= Z.pos p~0) by lia.
  rewrite Pos2Z.inj_pow in Hz.
  change (2 ^ 54) with 18014398509481984 in Hpow.
  unfold two53 in Hp. lia.
Qed.

Lemma digits2_pos_iter_xO (k p : positive) :
  digits2_pos (Pos.iter xO p k) = (digits2_pos p + k)%positive.
Proof.
  revert p. induction k as [| k IH] using Pos.peano_ind; intros p.
  - simpl. lia.
  - rewrite Pos.iter_succ. simpl. rewrite IH. lia.
Qed.

Lemma Zpos_iter_xO (k p : positive) :
  Z.pos (Pos.iter xO p k) = Z.pos p * 2 ^ Z.pos k.
Proof.
  revert p. induction k as [| k IH] using Pos.peano_ind; intros p.
  - simpl. lia.
  - rewrite Pos.iter_succ, Pos2Z.inj_xO, IH, Pos2Z.inj_succ.
    rewrite Z.pow_succ_r by lia. lia.
Qed.

(** An integer below 2^53 is a double: normalising it only shifts the
    mantissa to 53 bits. *)
Lemma of_Z_pos_small (p : positive) :
  Z.pos p < two53 ->
  exists m e, of_Z (Z.pos p) = S754_finite false m e /\ e <= 0 /\
              Z.pos m = Z.pos p * 2 ^ (- e).
Proof.
  intros Hp. pose proof (digits2_pos_le53 p Hp) as Hd.
  unfold of_Z, binary_normalize, binary_round, shl_align.
  set (d := digits2_pos p) in *.
  assert (Hf : fexp 53 1024 (Z.pos d + 0) = Z.pos d - 53).
  { unfold fexp, emin. lia. }
  rewrite Hf.
  destruct (Z.pos d - 53 - 0) as [| q | q] eqn:Hq; try lia.
  - exists p, 0. split; [| split; [lia | simpl; lia]].
    unfold binary_round_aux, shr_fexp. simpl Zdigits2. fold d.
    rewrite Hf. rewrite Hq. simpl.
    fold d. rewrite Hf, Hq. simpl. reflexivity.
  - exists (Pos.iter xO p q), (Z.pos d - 53).
    split; [| split; [lia |]].
    + unfold binary_round_aux, shr_fexp. simpl Zdigits2.
      rewrite digits2_pos_iter_xO. fold d.
      assert (Hf2 : fexp 53 1024 (Z.pos (d + q) + (Z.pos d - 53))
                    - (Z.pos d - 53) = 0).
      { unfold fexp, emin. lia. }
      rewrite Hf2. simpl.
      rewrite digits2_pos_iter_xO. fold d. rewrite Hf2. simpl.
      destruct (Z.pos d - 53 <=? 1024 - 53) eqn:E; [reflexivity | lia].
    + rewrite Zpos_iter_xO. f_equal. f_equal. lia.
Qed.

(** A finite number whose mantissa carries the whole fraction as zero
    bits denotes an integer, and [Math.floor] leaves it alone. *)
Lemma integral_finite (s : bool) (m : positive) (e P : Z) :
  e <= 0 -> Z.pos m = P * 2 ^ (- e) ->
  to_Z (S754_finite s m e) = Some (if s then - P else P) /\
  Math_floor (S754_finite s m e) = S754_finite s m e.
Proof.
  intros He Hm.
  assert (Hpow : 0 < 2 ^ (- e)) by (apply Z.pow_pos_nonneg; lia).
  assert (Hmod : Z.pos m mod 2 ^ (- e) = 0).
  { rewrite Hm. apply Z.mod_mul. lia. }
  unfold to_Z, Math_floor.
  destruct (0 <=? e) eqn:E0.
  - assert (e = 0) by lia. subst e. simpl in Hm. split; [| reflexivity].
    f_equal. destruct s; lia.
  - rewrite Hmod. simpl. split; [| reflexivity]. f_equal.
    destruct s.
    + change (Z.neg m) with (- Z.pos m). rewrite Hm.
      rewrite <- Z.mul_opp_l. apply Z.div_mul. lia.
    + rewrite Hm. apply Z.div_mul. lia.
Qed.

Lemma StrDigits_string_of_uint (u : uint) :
  StrDigits (NilEmpty.string_of_uint u) = u.
Proof. induction u; simpl; congruence. Qed.

Lemma parseFloat_string_of_uint (u : uint) :
  parseFloat (NilEmpty.string_of_uint u)
  = StrUnsigned (NilEmpty.string_of_uint u).
Proof. destruct u; reflexivity. Qed.

Lemma StrUnsigned_to_uint (p : positive) :
  StrUnsigned (NilEmpty.string_of_uint (Pos.to_uint p)) = of_Z (Z.pos p).
Proof.
  unfold StrUnsigned. rewrite StrDigits_string_of_uint.
  pose proof (DecimalPos.Unsigned.of_to p) as Hp.
  destruct (Pos.to_uint p); [discriminate Hp | ..];
    unfold N.of_uint; rewrite Hp; reflexivity.
Qed.

(** Within the safe range, [Math.floor(parseFloat(s))] of a decimal
    rendering is the rendered integer. *)
Lemma floor_parseFloat_decimal (v : Z) :
  - two53 < v < two53 ->
  to_Z (Math_floor (parseFloat (decimal v))) = Some v.
Proof.
  intros Hv. unfold decimal. destruct v as [| p | p]; simpl Z.to_int.
  - reflexivity.
  - simpl NilEmpty.string_of_int.
    rewrite parseFloat_string_of_uint, StrUnsigned_to_uint.
    destruct (of_Z_pos_small p) as (m & e & -> & He & Hm); [lia |].
    destruct (integral_finite false m e (Z.pos p) He Hm) as [Hz Hfl].
    rewrite Hfl. exact Hz.
  - simpl NilEmpty.string_of_int.
    change (parseFloat (String "-" (NilEmpty.string_of_uint (Pos.to_uint p))))
      with (SFopp (StrUnsigned (NilEmpty.string_of_uint (Pos.to_uint p)))).
    rewrite StrUnsigned_to_uint.
    destruct (of_Z_pos_small p) as (m & e & -> & He & Hm); [lia |].
    simpl SFopp.
    destruct (integral_finite true m e (Z.pos p) He Hm) as [Hz Hfl].
    rewrite Hfl. exact Hz.
Qed.

End NumberFacts.

(** ** Facts about buffers and [indexOf] *)

Section BufferFacts.

Lemma unhex_hex_byte (x : Byte.byte) :
  unhex_byte (hex_digit (Byte.to_N x / 16)) (hex_digit (Byte.to_N x mod 16))
  = Some x.
Proof. destruct x; reflexivity. Qed.

Lemma Buffer_toString_hex_inj (a b : Buffer) :
  Buffer_toString_hex a = Buffer_toString_hex b -> a = b.
Proof.
  revert b. induction a as [| x a IH]; intros [| y b] H; simpl in H;
    try discriminate; [reflexivity |].
  injection H as H1 H2 H3.
  pose proof (unhex_hex_byte x) as Hx. pose proof (unhex_hex_byte y) as Hy.
  rewrite H1, H2, Hy in Hx. injection Hx as ->.
  f_equal. apply IH. exact H3.
Qed.

(** [indexOf] answers -1 exactly when the element does not occur. *)
Lemma indexOf_from_absent (l : list string) (x : string) (i : Z) :
  0 <= i -> (indexOf_from i l x = -1 <-> ~ In x l).
Proof.
  revert i. induction l as [| y l IH]; intros i Hi; simpl.
  - tauto.
  - destruct (String.eqb y x) eqn:E.
    + apply String.eqb_eq in E. split; [lia | intros H; exfalso; auto].
    + apply String.eqb_neq in E. rewrite IH by lia. tauto.
Qed.

Lemma indexOf_absent (l : list string) (x : string) :
  indexOf l x = -1 <-> ~ In x l.
Proof. apply indexOf_from_absent. lia. Qed.

End BufferFacts.

(** ** The accounts facade *)

Section AccountsFacade.

Import AccountsModule.

Variable al : IAccountLogic.

Lemma take_address_error (data : gmap string value) :
  fst (take_address al data) = Err missing_error
  <-> truthy (get_prop data "address") = false
      /\ truthy (get_prop data "publicKey") = false.
Proof.
  unfold take_address.
  destruct (truthy (get_prop data "address")),
           (truthy (get_prop data "publicKey")); simpl;
    split; intros H; try discriminate; try (destruct H; discriminate); auto.
Qed.

Lemma take_address_derived (data : gmap string value) :
  truthy (get_prop data "address") = false ->
  truthy (get_prop data "publicKey") = true ->
  take_address al data
  = (Ok (VStr (al_generateAddressByPublicKey al (get_prop data "publicKey"))),
     delete "address" data).
Proof.
  intros Ha Hp. unfold take_address. rewrite Ha, Hp. simpl.
  unfold get_prop at 1. rewrite lookup_insert_eq. simpl.
  rewrite delete_insert_eq. reflexivity.
Qed.

End AccountsFacade.

(** C10. [setAccountAndGet], [mergeAccountAndGetSQL] and
    [mergeAccountAndGet] throw the error 'Missing address and public key'
    if and only if the argument supplies neither an address nor a public
    key (a property that is missing, or holds undefined, null or the empty
    string, supplies nothing); and when the address is absent and the
    public key present, the address is derived with
    [generateAddressByPublicKey] and the operation of the account logic runs
    on that address, with the object without its address property. *)
Theorem facade_missing_address_and_key
  (al : IAccountLogic) (data : gmap string value) :
  let neither := truthy (get_prop data "address") = false
                 /\ truthy (get_prop data "publicKey") = false in
  let missing := Err (JsError "Missing address and public key") in
  (fst (AccountsModule.setAccountAndGet al data) = missing <-> neither)
  /\ (fst (AccountsModule.mergeAccountAndGetSQL al data) = missing <-> neither)
  /\ (fst (AccountsModule.mergeAccountAndGet al data) = missing <-> neither)
  /\ (truthy (get_prop data "address") = false ->
      truthy (get_prop data "publicKey") = true ->
      let address :=
        VStr (al_generateAddressByPublicKey al (get_prop data "publicKey")) in
      let rest := delete "address" data in
      AccountsModule.setAccountAndGet al data
      = (match al_set al address rest with
         | Failed msg => Err (Rejected msg)
         | Resolved _ =>
             AccountsModule.lift_outcome (al_get al {["address" := address]})
         end, rest)
      /\ AccountsModule.mergeAccountAndGetSQL al data
         = (AccountsModule.lift_outcome (al_merge al address rest false), rest)
      /\ AccountsModule.mergeAccountAndGet al data
         = (AccountsModule.lift_outcome (al_merge al address rest true), rest)).
Proof.
  intros neither missing.
  pose proof (take_address_error al data) as Herr.
  assert (Hset : fst (AccountsModule.setAccountAndGet al data) = missing
                 <-> fst (AccountsModule.take_address al data) = missing).
  { unfold AccountsModule.setAccountAndGet.
    destruct (AccountsModule.take_address al data) as [[a | e] d]; simpl.
    - destruct (al_set al a d); simpl; [| split; discriminate].
      destruct (al_get al _); simpl; split; discriminate.
    - tauto. }
  assert (Hsql : fst (AccountsModule.mergeAccountAndGetSQL al data) = missing
                 <-> fst (AccountsModule.take_address al data) = missing).
  { unfold AccountsModule.mergeAccountAndGetSQL.
    destruct (AccountsModule.take_address al data) as [[a | e] d]; simpl.
    - destruct (al_merge al a d false); simpl; split; discriminate.
    - tauto. }
  assert (Hmrg : fst (AccountsModule.mergeAccountAndGet al data) = missing
                 <-> fst (AccountsModule.take_address al data) = missing).
  { unfold AccountsModule.mergeAccountAndGet.
    destruct (AccountsModule.take_address al data) as [[a | e] d]; simpl.
    - destruct (al_merge al a d true); simpl; split; discriminate.
    - tauto. }
  unfold missing, neither in *. fold AccountsModule.missing_error in *.
  repeat split; try tauto.
  all: intros; unfold AccountsModule.setAccountAndGet,
         AccountsModule.mergeAccountAndGetSQL, AccountsModule.mergeAccountAndGet;
       rewrite take_address_derived by assumption; try reflexivity.
  destruct (al_set al _ _); reflexivity.
Qed.

Lemma facade_derives_address_example :
  let data : gmap string value := {["publicKey" := VStr "ab"]} in
  truthy (get_prop data "address") = false
  /\ truthy (get_prop data "publicKey") = true
  /\ AccountsModule.mergeAccountAndGet Example.logic data
     = (Ok (VStr "abR"), data).
Proof.
  intros data.
  split; [reflexivity | split; [reflexivity |]].
  destruct (facade_missing_address_and_key Example.logic data)
    as (_ & _ & _ & H).
  destruct (H eq_refl eq_refl) as (_ & _ & ->).
  reflexivity.
Defined.


(** ** The functions of the rounds module compute their closed forms *)

Section Running.

Variable env : Env.

Lemma innerTick_scope_run block tx bw s :
  RoundsModule.innerTick_scope env block tx bw s = scope_run env block tx bw s.
Proof.
  unfold RoundsModule.innerTick_scope, scope_run, scopeOf, afterList, afterSum.
  cbn zeta. fold (roundOfBlock env block).
  change (negb (RoundsLogic.calcRound (activeDelegates env) (blk_height block + 1)
                =? roundOfBlock env block) || (blk_height block =? 1))
    with (finishing env block).
  assert (H1 : finishing env block = false -> (blk_height block =? 1) = false).
  { unfold finishing. intros H. apply orb_false_iff in H. tauto. }
  destruct (finishing env block).
  - clear H1.
    unfold RoundsModule.sumRound, RoundsModule.getOutsiders,
      RoundsModule.read_roundSums, RoundsModule.logger_debug, effect, await,
      mbind, M_bind, bind, mret, M_ret, ret, throw. cbn beta iota zeta.
    fold (roundOfBlock env block).
    destruct (RoundsModel_sumRound env _ _ tx) as [res | msg]; [| reflexivity].
    unfold correctedSums, convertSums. cbn [roundDelegates].
    destruct (blk_height block =? 1); cbn [andb].
    + destruct (negb (Nat.eqb _ _)); cbn beta iota.
      * unfold genesisSums; cbn [roundDelegates].
        destruct (generateDelegateList env _); reflexivity.
      * destruct (generateDelegateList env _); reflexivity.
    + destruct (generateDelegateList env _); reflexivity.
  - rewrite H1 by reflexivity. reflexivity.
Qed.

Lemma tick_txGenerator_run tx sc s :
  RoundsModule.tick_txGenerator env tx sc s = forward_run env tx sc s.
Proof.
  unfold RoundsModule.tick_txGenerator, forward_run, snapshotRoundAt,
    dbHelper_performOps, RoundsModule.getSnapshotRounds,
    RoundsModule.bus_message, RoundsModule.logger_debug,
    RoundsModule.new_RoundLogic, update_accounts,
    effect, await, mbind, M_bind, bind, mret, M_ret, ret, throw.
  cbn beta iota zeta. cbn [appState log_effect].
  destruct (performOps_outcome env _ tx) as [[] | msg]; [| reflexivity].
  destruct (finishRound sc); [| reflexivity].
  destruct (bus_outcome env _) as [[] | msg]; reflexivity.
Qed.

Lemma backwardTick_txGenerator_run tx sc s :
  RoundsModule.backwardTick_txGenerator env tx sc s = backward_run env tx sc s.
Proof.
  unfold RoundsModule.backwardTick_txGenerator, backward_run,
    dbHelper_performOps, RoundsModule.logger_debug,
    RoundsModule.new_RoundLogic, update_accounts, effect,
    await, mbind, M_bind, bind, mret, M_ret, ret, throw.
  cbn beta iota zeta.
  destruct (performOps_outcome env _ tx) as [[] | msg]; reflexivity.
Qed.

Lemma innerTick_catch_run bw e s :
  RoundsModule.innerTick_catch bw e s = catch_run bw e s.
Proof. destruct e as [| | | []]; reflexivity. Qed.

Lemma innerTick_try_run block tx bw gen s :
  RoundsModule.innerTick_try env block tx bw gen (ret tt) s =
  match scope_run env block tx bw (raised s) with
  | (Err e, s1) => (Err e, s1)
  | (Ok sc, s1) =>
      match gen sc s1 with
      | (Ok _, s2) => (Ok tt, lowered s2)
      | (Err e, s2) => (Err e, s2)
      end
  end.
Proof.
  unfold RoundsModule.innerTick_try, mbind, M_bind, bind.
  unfold RoundsModule.appStateLogic_set at 1. fold (raised s).
  rewrite innerTick_scope_run.
  destruct (scope_run env block tx bw (raised s)) as [[sc | e] s1];
    [| reflexivity].
  destruct (gen sc s1) as [[[] | e] s2]; reflexivity.
Qed.

Lemma innerTick_run block tx bw gen s :
  RoundsModule.innerTick env block tx bw gen (ret tt) s =
  match scope_run env block tx bw (raised s) with
  | (Err e, s1) => catch_run bw e s1
  | (Ok sc, s1) =>
      match gen sc s1 with
      | (Ok _, s2) => (Ok tt, lowered s2)
      | (Err e, s2) => catch_run bw e s2
      end
  end.
Proof.
  unfold RoundsModule.innerTick, try_catch. rewrite innerTick_try_run.
  destruct (scope_run env block tx bw (raised s)) as [[sc | e] s1].
  - destruct (gen sc s1) as [[[] | e] s2]; [reflexivity |].
    apply innerTick_catch_run.
  - apply innerTick_catch_run.
Qed.

Lemma backwardTick_unfold block previousBlock tx s :
  RoundsModule.backwardTick env block previousBlock tx s
  = RoundsModule.innerTick env block tx true
      (RoundsModule.backwardTick_txGenerator env tx) (ret tt)
      (log_effect (BusMessage (roundBackwardTick block)) s).
Proof. reflexivity. Qed.

End Running.

(** The runs of [tick], by cases on what the collaborators answer: the
    round query fails, the delegate list fails, the operations fail, the bus
    fails, or all succeed (in a round that finishes); the operations fail or
    succeed (in a round that does not). Each failure comes twice: with an
    error that has a message, and with null or undefined. *)
Ltac forward_generator env tx Efin :=
  rewrite !tick_txGenerator_run; unfold forward_run;
  cbn [finishRound scopeOf]; rewrite ?Efin;
  destruct (performOps_outcome env _ tx) as [[] | [?msg |]] eqn:Eops.

Ltac tick_cases env block tx :=
  unfold RoundsModule.tick; rewrite !innerTick_run; unfold scope_run;
  destruct (finishing env block) eqn:Efin;
  [ destruct (RoundsModel_sumRound env _ _ tx) as [res | [?msg |]] eqn:Esum;
    [ destruct (generateDelegateList env _) as [slate | [?msg |]] eqn:Elist;
      [ forward_generator env tx Efin;
        [ destruct (bus_outcome env _) as [[] | [?msg |]] eqn:Ebus | | ]
      | | ]
    | | ]
  | forward_generator env tx Efin ];
  unfold catch_run, rethrown.

(** The runs of [backwardTick], likewise. *)
Ltac backward_generator env tx :=
  rewrite !backwardTick_txGenerator_run; unfold backward_run;
  destruct (performOps_outcome env _ tx) as [[] | [?msg |]] eqn:Eops.

Ltac backwardTick_cases env block tx :=
  rewrite !backwardTick_unfold; rewrite !innerTick_run; unfold scope_run;
  destruct (finishing env block) eqn:Efin;
  [ destruct (RoundsModel_sumRound env _ _ tx) as [res | [?msg |]] eqn:Esum;
    [ destruct (generateDelegateList env _) as [slate | [?msg |]] eqn:Elist;
      [ backward_generator env tx | | ]
    | | ]
  | backward_generator env tx ];
  unfold catch_run, rethrown.

(** Computing the log and the flags of a run. *)
Ltac run_log :=
  cbn [state_of outcome_of fst snd caught lowered raised log_effect set_key
       map_accounts afterList afterSum clear_log effects appState isTicking
       accounts history rev app head tail last flag_writes omap].

(** Finding an effect in a computed history. *)
Ltac pick_effect H :=
  cbn [In] in H;
  repeat (destruct H as [H | H]); try discriminate H; try contradiction H.

(** ** The scope of a tick *)

Section ScopeFacts.

Variable env : Env.

Let N : Z := activeDelegates env.

Lemma finishing_is_round_end (block : SignedBlockType) :
  finishing env block = is_round_end N (blk_height block).
Proof.
  unfold finishing, is_round_end, round_of, roundOfBlock. fold N.
  rewrite (Z.eqb_sym (RoundsLogic.calcRound N (blk_height block + 1))).
  reflexivity.
Qed.

(** The filter of [getOutsiders] is the difference of the two lists: the
    hexadecimal rendering tells keys apart. *)
Lemma filter_indexOf_difference (slate ds : list Buffer) :
  List.filter
    (fun pk => indexOf (map Buffer_toString_hex ds) (Buffer_toString_hex pk) =? -1)
    slate
  = list_difference slate ds.
Proof.
  induction slate as [| pk slate IH]; [reflexivity |].
  cbn [List.filter list_difference]. rewrite IH.
  assert (Hiff : indexOf (map Buffer_toString_hex ds) (Buffer_toString_hex pk) = -1
                 <-> pk ∉ ds).
  { rewrite indexOf_absent, in_map_iff, list_elem_of_In. split.
    - intros Hn Hin. apply Hn. exists pk. split; [reflexivity | exact Hin].
    - intros Hn (pk' & Heq & Hin). apply Buffer_toString_hex_inj in Heq.
      subst pk'. exact (Hn Hin). }
  destruct (decide_rel elem_of pk ds) as [Hin | Hout].
  - destruct (Z.eqb_spec
                (indexOf (map Buffer_toString_hex ds) (Buffer_toString_hex pk)) (-1))
      as [E | E]; [| reflexivity].
    exfalso. apply Hiff in E. exact (E Hin).
  - apply Hiff in Hout. rewrite Hout. reflexivity.
Qed.

Lemma scope_run_never_null_read block tx bw s :
  is_null_read (outcome_of (scope_run env block tx bw s)) = false.
Proof.
  unfold scope_run.
  destruct (finishing env block); [| reflexivity].
  destruct (RoundsModel_sumRound env _ _ tx); [| reflexivity].
  destruct (generateDelegateList env _); reflexivity.
Qed.

End ScopeFacts.





(** C9. The read of [roundSums.roundDelegates] in the correction for
    height 1 never finds null: a block of height 1 always finishes its
    round, so [roundSums] was computed by [sumRound]. No run of the scope
    computation, of [tick] or of [backwardTick] ends in the TypeError of a
    property read on round sums that are null. (The read of [e.message] in
    the catch block is another read, with an error of its own,
    [TypeError_nullish].) *)
Theorem genesis_read_is_never_null
  (env : Env) (block previousBlock : SignedBlockType) (tx : Transaction)
  (bw : bool) (s : State) :
  implb (blk_height block =? 1)
        (is_round_end (activeDelegates env) (blk_height block)) = true
  /\ is_null_read (outcome_of (RoundsModule.innerTick_scope env block tx bw s))
     = false
  /\ is_null_read (outcome_of (RoundsModule.tick env block tx s)) = false
  /\ is_null_read
       (outcome_of (RoundsModule.backwardTick env block previousBlock tx s))
     = false.
Proof.
  split; [| split; [| split]].
  - unfold is_round_end. destruct (blk_height block =? 1); [| reflexivity].
    rewrite orb_true_r. reflexivity.
  - rewrite innerTick_scope_run. apply scope_run_never_null_read.
  - tick_cases env block tx; reflexivity.
  - backwardTick_cases env block tx; reflexivity.
Qed.







(** ** The amounts of a round *)

(** C7 (amended). [sumRound] converts the decimal strings of the store
    through floating point, with [Math.floor(parseFloat(.))]. When the
    persisted fee total and rewards are integers strictly between -2^53 and
    2^53, the numbers that [sumRound] returns denote exactly these integers;
    beyond that range nothing is promised. *)
Theorem sumRound_exact_in_safe_range
  (env : Env) (round : Z) (tx : Transaction) (s : State)
  (f : Z) (rs : list Z) (ds : list Buffer) :
  RoundsModel_sumRound env (activeDelegates env) round tx
  = Resolved {| fees := JS.decimal f; rewards := map JS.decimal rs;
                delegates := ds |} ->
  - JS.two53 < f < JS.two53 ->
  Forall (fun r => - JS.two53 < r < JS.two53) rs ->
  exists sums,
    outcome_of (RoundsModule.sumRound env round tx s) = Ok sums
    /\ JS.to_Z (roundFees sums) = Some f
    /\ map JS.to_Z (roundRewards sums) = map Some rs
    /\ roundDelegates sums = ds.
Proof.
  intros Hres Hf Hrs.
  unfold RoundsModule.sumRound, RoundsModule.logger_debug, effect, await,
    mbind, M_bind, bind, mret, M_ret, ret. cbn beta iota.
  rewrite Hres. cbn [outcome_of fst fees rewards delegates].
  eexists. split; [reflexivity |]. cbn [roundFees roundRewards roundDelegates].
  split; [apply floor_parseFloat_decimal; exact Hf | split; [| reflexivity]].
  clear Hres.
  induction Hrs as [| r rs Hr _ IH]; [reflexivity |].
  cbn [map]. rewrite IH. f_equal. apply floor_parseFloat_decimal. exact Hr.
Qed.

Lemma sumRound_exact_example :
  exists sums,
    outcome_of (RoundsModule.sumRound
                  (Example.env "100" Example.quiet_bus) 1 0%nat (Example.state None))
    = Ok sums
    /\ JS.to_Z (roundFees sums) = Some 100
    /\ map JS.to_Z (roundRewards sums) = [Some 10; Some 20; Some 30]
    /\ roundDelegates sums = [Example.pkA; Example.pkB; Example.pkA].
Proof.
  apply (sumRound_exact_in_safe_range (Example.env "100" Example.quiet_bus)
           1 0%nat (Example.state None) 100 [10; 20; 30]
           [Example.pkA; Example.pkB; Example.pkA]).
  - reflexivity.
  - unfold JS.two53. lia.
  - repeat constructor; unfold JS.two53; lia.
Defined.

(** The claim fails beyond the safe range: a persisted fee total of
    2^53 + 1 reaches the round logic as 2^53. *)
Lemma sumRound_rounds_large_total :
  let persisted := 9007199254740993 in
  exists sums,
    JS.decimal persisted = "9007199254740993"%string
    /\ outcome_of (RoundsModule.sumRound
                     (Example.env "9007199254740993" Example.quiet_bus) 1 0%nat
                     (Example.state None))
       = Ok sums
    /\ JS.to_Z (roundFees sums) = Some 9007199254740992
    /\ JS.to_Z (roundFees sums) <> Some persisted.
Proof.
  cbv zeta. eexists. split; [vm_compute; reflexivity |].
  split; [vm_compute; reflexivity |].
  split; [vm_compute; reflexivity | vm_compute; discriminate].
Qed.

(** ** The ticking flag *)

(** C2. The claim fails on the code at this input: the tick, forward or
    backward, of the block that ends round 1 (height 3 with 3 delegates)
    while the round query rejects with undefined. The catch block of
    [innerTick] reads [e.message] before it lowers the flag; on undefined
    the read throws a TypeError. So 'rounds.isTicking' is written once,
    true, and is still up when the call ends, nothing is logged, and the
    caller gets the TypeError in place of the rejection. With a rejection
    that carries a message, all else equal, the flag is lowered and the
    rejection thrown again. *)
Theorem isTicking_left_up_by_nullish_rejection :
  let b := Example.blk 3 Example.pkA in
  let t reason :=
    RoundsModule.tick (rejecting_env Example.logic reason) b 0%nat
      (clear_log (Example.state None)) in
  let u reason :=
    RoundsModule.backwardTick (rejecting_env Example.logic reason) b
      (Example.blk 2 Example.pkB) 0%nat (clear_log (Example.state None)) in
  (flag_writes (history (state_of (t Nullish))) = [true]
   /\ isTicking (appState (state_of (t Nullish))) = true
   /\ outcome_of (t Nullish) = Err (TypeError_nullish "e" "message")
   /\ warnings (history (state_of (t Nullish))) = [])
  /\ (flag_writes (history (state_of (u Nullish))) = [true]
      /\ isTicking (appState (state_of (u Nullish))) = true
      /\ outcome_of (u Nullish) = Err (TypeError_nullish "e" "message")
      /\ warnings (history (state_of (u Nullish))) = [])
  /\ (flag_writes (history (state_of (t "no connection"))) = [true; false]
      /\ isTicking (appState (state_of (t "no connection"))) = false
      /\ outcome_of (t "no connection") = Err (Rejected "no connection"))
  /\ (flag_writes (history (state_of (u "no connection"))) = [true; false]
      /\ isTicking (appState (state_of (u "no connection"))) = false
      /\ outcome_of (u "no connection") = Err (Rejected "no connection")).
Proof.
  cbv zeta. repeat split; vm_compute; reflexivity.
Qed.

(** ** The operations of a tick and their order *)

Section OpsOrder.

Variable env : Env.





End OpsOrder.







(** ** The finishRound event *)

(** C8 (amended). In [tick] the finishRound message is handed to the bus
    only after the operations of the round were passed to the executor and
    the executor answered: in the history of the call the message comes
    right after the one [PerformOps], and no operations follow it. [tick]
    awaits the bus: the tick ends normally when the promise of the bus
    resolves, and when it rejects with an error the tick throws that error,
    with 'rounds.isTicking' cleared, after the operations ran. (When the bus
    rejects with null or undefined the catch block of [innerTick] throws the
    TypeError of its read of [e.message] and leaves the flag up.) *)
Theorem finishRound_event_after_ops
  (env : Env) (b : SignedBlockType) (tx : Transaction) (s : State) (r : Z) :
  let t := RoundsModule.tick env b tx (clear_log s) in
  In (BusMessage (finishRound_event r)) (history (state_of t)) ->
  r = round_of (activeDelegates env) (blk_height b)
  /\ is_round_end (activeDelegates env) (blk_height b) = true
  /\ (exists pre ops post,
        history (state_of t)
        = pre ++ PerformOps ops tx :: BusMessage (finishRound_event r) :: post
        /\ existsb is_performOps pre = false
        /\ existsb is_performOps post = false
        /\ accounts (state_of t) = fold_left exec_op ops (accounts s))
  /\ outcome_of t
     = match bus_outcome env (finishRound_event r) with
       | Resolved _ => Ok tt
       | Failed reason => Err (rethrown (Rejected reason))
       end
  /\ isTicking (appState (state_of t))
     = match bus_outcome env (finishRound_event r) with
       | Failed Nullish => true
       | _ => false
       end.
Proof.
  cbv zeta. tick_cases env b tx; run_log; intros H; pick_effect H.
  all: injection H as <-.
  all: cbn [round scopeOf] in *.
  all: rewrite Ebus, <- finishing_is_round_end, Efin.
  all: split; [reflexivity | split; [reflexivity | split; [| split; reflexivity]]].
  all: eexists [_; _; _; _; _; _], _, _.
  all: split; [reflexivity | split; [reflexivity | split; reflexivity]].
Qed.

Lemma finishRound_event_example :
  let t := RoundsModule.tick (Example.env "100" Example.quiet_bus)
             (Example.blk 3 Example.pkA) 0%nat
             (clear_log (Example.state None)) in
  In (BusMessage (finishRound_event 1)) (history (state_of t))
  /\ outcome_of t = Ok tt
  /\ isTicking (appState (state_of t)) = false.
Proof.
  cbv zeta.
  assert (H : In (BusMessage (finishRound_event 1))
                (history
                   (state_of
                      (RoundsModule.tick (Example.env "100" Example.quiet_bus)
                         (Example.blk 3 Example.pkA) 0%nat
                         (clear_log (Example.state None)))))).
  { vm_compute. do 7 right. left. reflexivity. }
  split; [exact H |].
  destruct (finishRound_event_after_ops _ _ _ _ _ H) as (_ & _ & _ & -> & ->).
  split; reflexivity.
Defined.

(** The claim fails: with everything else equal, the answer of the bus to
    the finishRound message decides whether the tick succeeds. With a bus
    that passes on the failure of a consumer the tick throws, after its
    operations ran and with the flag lowered. *)
Lemma bus_failure_fails_tick :
  let quiet := RoundsModule.tick (Example.env "100" Example.quiet_bus)
                 (Example.blk 3 Example.pkA) 0%nat (Example.state None) in
  let failing := RoundsModule.tick (Example.env "100" Example.failing_bus)
                   (Example.blk 3 Example.pkA) 0%nat (Example.state None) in
  outcome_of quiet = Ok tt
  /\ outcome_of failing = Err (Rejected "listener failed")
  /\ outcome_of quiet <> outcome_of failing
  /\ isTicking (appState (state_of failing)) = false
  /\ accounts (state_of failing) = accounts (state_of quiet)
  /\ accounts (state_of failing) <> accounts (Example.state None).
Proof.
  cbv zeta. split; [vm_compute; reflexivity |].
  split; [vm_compute; reflexivity |].
  split; [vm_compute; discriminate |].
  split; [vm_compute; reflexivity |].
  split; [vm_compute; reflexivity |].
  intros H.
  apply (f_equal (fun m => balance <$> m !! "02R"%string)) in H.
  vm_compute in H. discriminate H.
Qed.

(* ===================================================================== *)
(** * What a tick touches, reads and reports *)
(* ===================================================================== *)

Ltac read_log :=
  run_log;
  cbn [bus_messages queries warnings is_query is_newRoundLogic is_performOps
       List.filter existsb omap String.eqb Ascii.eqb Bool.eqb orb andb
       isLoaded snapshot].

(** A tick in either direction leaves 'rounds.isLoaded' and
    'rounds.snapshot' as they were. *)
Lemma run_tick_appState
  (env : Env) (bw : bool) (block previousBlock : SignedBlockType)
  (tx : Transaction) (s : State) :
  isLoaded (appState (state_of (run_tick env bw block previousBlock tx s)))
  = isLoaded (appState s)
  /\ snapshot (appState (state_of (run_tick env bw block previousBlock tx s)))
     = snapshot (appState s).
Proof.
  unfold run_tick. destruct bw.
  - split; backwardTick_cases env block tx; run_log; reflexivity.
  - split; tick_cases env block tx; run_log; reflexivity.
Qed.

(** X1. A tick in either direction writes no key of the application state
    but 'rounds.isTicking': 'rounds.isLoaded' and 'rounds.snapshot' are
    after the call what they were before it, on every path. *)
Theorem tick_writes_only_the_ticking_flag
  (env : Env) (bw : bool) (block previousBlock : SignedBlockType)
  (tx : Transaction) (s : State) :
  let r := run_tick env bw block previousBlock tx s in
  isLoaded (appState (state_of r)) = isLoaded (appState s)
  /\ snapshot (appState (state_of r)) = snapshot (appState s)
  /\ forall key v,
       In (AppStateSet key v)
         (history (state_of (run_tick env bw block previousBlock tx (clear_log s)))) ->
       key = rounds_isTicking.
Proof.
  cbv zeta.
  destruct (run_tick_appState env bw block previousBlock tx s) as [Hl Hs].
  split; [exact Hl |]. split; [exact Hs |].
  intros key v. unfold run_tick. destruct bw.
  - backwardTick_cases env block tx; run_log; intros H; pick_effect H.
    all: injection H as <- _; reflexivity.
  - tick_cases env block tx; run_log; intros H; pick_effect H.
    all: injection H as <- _; reflexivity.
Qed.

(** X2. A tick reads the block store and the delegates module only when
    its block ends a round, each at most once: first the sums of the block's
    round, inside the transaction of the caller, then, when the sums came,
    the delegate list at the last height of that round. *)
Theorem reads_of_a_tick
  (env : Env) (bw : bool) (block previousBlock : SignedBlockType)
  (tx : Transaction) (s : State) :
  let N := activeDelegates env in
  let h := blk_height block in
  queries (history (state_of (run_tick env bw block previousBlock tx (clear_log s))))
  = if is_round_end N h then
      SumRoundQuery N (round_of N h) tx
      :: match RoundsModel_sumRound env N (round_of N h) tx with
         | Resolved _ => [DelegateListQuery (last_in_round N (round_of N h))]
         | Failed _ => []
         end
    else [].
Proof.
  cbv zeta. rewrite <- finishing_is_round_end.
  unfold round_of, last_in_round. fold (roundOfBlock env block).
  unfold run_tick. destruct bw.
  - backwardTick_cases env block tx; read_log; reflexivity.
  - tick_cases env block tx; read_log; reflexivity.
Qed.



(** X4. A tick that ends normally logs no warning. A tick that throws
    has logged exactly one, in the catch block of [innerTick]: the message
    is 'Error while doing modules.innerTick [backwards=...]' with the
    direction of the tick, and the second argument is [e.message || e] of
    the error [e] that is thrown. The one exception is the TypeError of the
    catch block itself, thrown by the read of [e.message] when the try block
    threw null or undefined: then nothing was logged. *)
Theorem warning_of_a_tick
  (env : Env) (bw : bool) (block previousBlock : SignedBlockType)
  (tx : Transaction) (s : State) :
  let r := run_tick env bw block previousBlock tx (clear_log s) in
  warnings (history (state_of r))
  = match outcome_of r with
    | Ok _ => []
    | Err (TypeError_nullish _ _) => []
    | Err e =>
        [(("Error while doing modules.innerTick [backwards="
           ++ (if bw then "true" else "false") ++ "]")%string,
          MessageOrSelf e)]
    end.
Proof.
  cbv zeta. unfold run_tick. destruct bw.
  - backwardTick_cases env block tx; read_log; reflexivity.
  - tick_cases env block tx; read_log; reflexivity.
Qed.

(** X5. [backwardTick] hands exactly one message to the bus, the
    roundBackwardTick of its block, and does not wait for the answer:
    whatever the bus answers, the call ends the same way and leaves the same
    state. *)
Theorem backwardTick_does_not_await_the_bus
  (env : Env) (bus : BusEvent -> Outcome unit)
  (block previousBlock : SignedBlockType) (tx : Transaction) (s : State) :
  bus_messages
    (history
       (state_of (RoundsModule.backwardTick env block previousBlock tx (clear_log s))))
  = [roundBackwardTick block]
  /\ RoundsModule.backwardTick (with_bus env bus) block previousBlock tx s
     = RoundsModule.backwardTick env block previousBlock tx s.
Proof.
  split.
  - backwardTick_cases env block tx; read_log; reflexivity.
  - rewrite !backwardTick_unfold, !innerTick_run.
    change (scope_run (with_bus env bus)) with (scope_run env).
    destruct (scope_run env block tx true _) as [[sc | e] s1]; [| reflexivity].
    rewrite !backwardTick_txGenerator_run. reflexivity.
Qed.

(** X6. A tick does not consult 'rounds.isTicking' or 'rounds.isLoaded':
    started with the flags at any values, also with the ticking flag already
    up, it ends the same way, does the same to the accounts, has the same
    effects and leaves the ticking flag where it would have left it
    anyway. *)
Theorem tick_does_not_consult_the_flags
  (env : Env) (bw : bool) (block previousBlock : SignedBlockType)
  (tx : Transaction) (s : State) (loaded ticking : bool) :
  let r := run_tick env bw block previousBlock tx s in
  let r' := run_tick env bw block previousBlock tx (with_flags loaded ticking s) in
  outcome_of r' = outcome_of r
  /\ accounts (state_of r') = accounts (state_of r)
  /\ effects (state_of r') = effects (state_of r)
  /\ isTicking (appState (state_of r')) = isTicking (appState (state_of r))
  /\ isLoaded (appState (state_of r')) = loaded
  /\ snapshot (appState (state_of r')) = snapshot (appState (state_of r)).
Proof.
  cbv zeta. unfold run_tick. destruct bw.
  - repeat split.
    all: backwardTick_cases env block tx; run_log; reflexivity.
  - repeat split.
    all: tick_cases env block tx; run_log; reflexivity.
Qed.

(** X21. The bracket of 'rounds.isTicking' around a tick, on every path.
    The flag is raised by the first effect of [tick]; in [backwardTick] the
    roundBackwardTick message is handed to the bus first and the flag is
    raised next. How the call ends depends on how the try block of
    [innerTick] ended. When it returned, or threw anything but null or
    undefined, the last effect of the call lowers the flag, the flag was
    written exactly twice, it is down when the call ends, and the call ends
    as the try block did: what was thrown is thrown again. When the try
    block threw null or undefined, the flag was written once and is up when
    the call ends, and the call throws the TypeError of the read of
    [e.message]. *)
Theorem isTicking_bracket
  (env : Env) (block previousBlock : SignedBlockType) (tx : Transaction)
  (s : State) :
  let t := RoundsModule.tick env block tx (clear_log s) in
  let b := RoundsModule.backwardTick env block previousBlock tx (clear_log s) in
  let tried_t :=
    RoundsModule.innerTick_try env block tx false
      (RoundsModule.tick_txGenerator env tx) (ret tt) (clear_log s) in
  let tried_b :=
    RoundsModule.innerTick_try env block tx true
      (RoundsModule.backwardTick_txGenerator env tx) (ret tt)
      (log_effect (BusMessage (roundBackwardTick block)) (clear_log s)) in
  head (history (state_of t)) = Some (AppStateSet rounds_isTicking true)
  /\ bracketed t (outcome_of tried_t)
  /\ head (history (state_of b)) = Some (BusMessage (roundBackwardTick block))
  /\ head (tail (history (state_of b))) = Some (AppStateSet rounds_isTicking true)
  /\ bracketed b (outcome_of tried_b).
Proof.
  cbv zeta. rewrite !innerTick_try_run. unfold bracketed.
  split; [| split; [| split; [| split]]].
  1, 2: tick_cases env block tx; run_log; repeat split; reflexivity.
  all: backwardTick_cases env block tx; run_log; repeat split; reflexivity.
Qed.

(** ** The flags over the life of the module *)

Section Flags.

Variable env : Env.
Variable prev : SignedBlockType -> SignedBlockType.

Lemma ticks_appState bs tx s :
  isLoaded (appState (state_of (ticks env bs tx s))) = isLoaded (appState s)
  /\ snapshot (appState (state_of (ticks env bs tx s))) = snapshot (appState s).
Proof.
  revert s. induction bs as [| b bs' IH]; intros s; [split; reflexivity |].
  cbn [ticks]. unfold mbind, M_bind, bind.
  pose proof (run_tick_appState env false b b tx s) as Hb.
  cbn [run_tick] in Hb.
  destruct (RoundsModule.tick env b tx s) as [[[] | e] s1];
    cbn [state_of snd] in Hb |- *; [| exact Hb].
  destruct (IH s1) as [Hl Hs]. destruct Hb as [Hl' Hs'].
  split; congruence.
Qed.

Lemma backwardTicks_appState bs tx s :
  isLoaded (appState (state_of (backwardTicks env prev bs tx s)))
  = isLoaded (appState s)
  /\ snapshot (appState (state_of (backwardTicks env prev bs tx s)))
     = snapshot (appState s).
Proof.
  revert s. induction bs as [| b bs' IH]; intros s; [split; reflexivity |].
  cbn [backwardTicks]. unfold mbind, M_bind, bind.
  pose proof (run_tick_appState env true b (prev b) tx s) as Hb.
  cbn [run_tick] in Hb.
  destruct (RoundsModule.backwardTick env b (prev b) tx s) as [[[] | e] s1];
    cbn [state_of snd] in Hb |- *; [| exact Hb].
  destruct (IH s1) as [Hl Hs]. destruct Hb as [Hl' Hs'].
  split; congruence.
Qed.

End Flags.

(** X7. [onBlockchainReady] raises 'rounds.isLoaded' and [cleanup]
    lowers it; each writes that one key, so 'rounds.snapshot',
    'rounds.isTicking' and the accounts are after the call what they were
    before it, and each resolves. In between, 'rounds.isLoaded' stays up and
    'rounds.snapshot' stays as it was through any forward ticks followed by
    any backward ticks, whether they succeed or stop at a failure. *)
Theorem isLoaded_lifecycle
  (env : Env) (prev : SignedBlockType -> SignedBlockType)
  (bs bs' : list SignedBlockType) (tx : Transaction) (s : State) :
  let ready := state_of (RoundsModule.onBlockchainReady s) in
  let worked :=
    state_of (backwardTicks env prev bs' tx (state_of (ticks env bs tx ready))) in
  let cleaned := state_of (RoundsModule.cleanup worked) in
  (outcome_of (RoundsModule.onBlockchainReady s) = Ok tt
   /\ isLoaded (appState ready) = true
   /\ snapshot (appState ready) = snapshot (appState s)
   /\ isTicking (appState ready) = isTicking (appState s)
   /\ accounts ready = accounts s)
  /\ (isLoaded (appState worked) = true
      /\ snapshot (appState worked) = snapshot (appState s))
  /\ (outcome_of (RoundsModule.cleanup worked) = Ok tt
      /\ isLoaded (appState cleaned) = false
      /\ snapshot (appState cleaned) = snapshot (appState worked)
      /\ isTicking (appState cleaned) = isTicking (appState worked)
      /\ accounts cleaned = accounts worked).
Proof.
  cbv zeta. split; [repeat split |]. split; [| repeat split].
  destruct (backwardTicks_appState env prev bs' tx
              (state_of (ticks env bs tx (state_of (RoundsModule.onBlockchainReady s)))))
    as [-> ->].
  destruct (ticks_appState env bs tx (state_of (RoundsModule.onBlockchainReady s)))
    as [-> ->].
  split; reflexivity.
Qed.

(** ** The outsiders *)

Section Outsiders.

Lemma list_difference_same_elements (slate ds ds' : list Buffer) :
  (forall pk, pk ∈ ds <-> pk ∈ ds') ->
  list_difference slate ds = list_difference slate ds'.
Proof.
  intros Hsame. induction slate as [| pk slate IH]; [reflexivity |].
  cbn [list_difference]. rewrite IH.
  destruct (decide_rel elem_of pk ds) as [Hin | Hout],
           (decide_rel elem_of pk ds') as [Hin' | Hout'];
    try reflexivity.
  - exfalso. apply Hout'. apply Hsame. exact Hin.
  - exfalso. apply Hout. apply Hsame. exact Hin'.
Qed.

Lemma list_difference_count (slate ds : list Buffer) :
  (length (list_difference slate ds)
   + length (filter (fun pk => pk ∈ ds) slate))%nat
  = length slate.
Proof.
  induction slate as [| pk slate IH]; [reflexivity |].
  cbn [list_difference]. rewrite filter_cons.
  destruct (decide_rel elem_of pk ds) as [Hin | Hout].
  - rewrite decide_True by exact Hin. cbn [length]. lia.
  - rewrite decide_False by exact Hout. cbn [length]. lia.
Qed.

Lemma getOutsiders_run env round ds s slate :
  generateDelegateList env
    (RoundsLogic.lastInRound (activeDelegates env) round) = Resolved slate ->
  outcome_of (RoundsModule.getOutsiders env round ds s)
  = Ok (map (fun pk => al_generateAddressByPublicKey (accountLogic env) (VBuf pk))
          (list_difference slate ds)).
Proof.
  intros Hslate.
  unfold RoundsModule.getOutsiders, effect, await, mbind, M_bind, bind, mret,
    M_ret, ret. cbn beta iota zeta. rewrite Hslate. cbn beta iota.
  rewrite filter_indexOf_difference. reflexivity.
Qed.

End Outsiders.

(** X8. [getOutsiders] depends only on which keys forged, not on how
    often or in which order they appear among the forgers of the round, and
    it returns one address for each entry of the slate whose key did not
    forge: the outsiders and the entries of the slate that forged add up to
    the slate. *)
Theorem getOutsiders_depends_on_who_forged
  (env : Env) (round : Z) (ds ds' slate : list Buffer) (s : State) :
  (forall pk, pk ∈ ds <-> pk ∈ ds') ->
  generateDelegateList env
    (RoundsLogic.lastInRound (activeDelegates env) round) = Resolved slate ->
  exists outs,
    outcome_of (RoundsModule.getOutsiders env round ds s) = Ok outs
    /\ outcome_of (RoundsModule.getOutsiders env round ds' s) = Ok outs
    /\ (length outs + length (filter (fun pk => pk ∈ ds) slate))%nat
       = length slate.
Proof.
  intros Hsame Hslate. eexists. split; [| split].
  - apply getOutsiders_run. exact Hslate.
  - rewrite (getOutsiders_run _ _ _ _ _ Hslate).
    rewrite (list_difference_same_elements slate ds ds' Hsame). reflexivity.
  - rewrite length_map. apply list_difference_count.
Qed.

Lemma getOutsiders_example :
  let env := Example.env "100" Example.quiet_bus in
  outcome_of (RoundsModule.getOutsiders env 1 [Example.pkA; Example.pkB; Example.pkA]
                (Example.state None))
  = Ok ["ffR"%string]
  /\ outcome_of (RoundsModule.getOutsiders env 1 [Example.pkB; Example.pkA]
                   (Example.state None))
     = Ok ["ffR"%string].
Proof.
  cbv zeta.
  destruct (getOutsiders_depends_on_who_forged
              (Example.env "100" Example.quiet_bus) 1
              [Example.pkA; Example.pkB; Example.pkA] [Example.pkB; Example.pkA]
              [Example.pkA; Example.pkB; Example.pkC] (Example.state None))
    as (outs & H1 & H2 & _).
  - intros pk. rewrite !elem_of_cons. rewrite !elem_of_nil. tauto.
  - reflexivity.
  - rewrite H2. split; [reflexivity |].
    rewrite <- H2. reflexivity.
Defined.

(* ===================================================================== *)
(** * The accounts facade: which of address and public key counts *)
(* ===================================================================== *)

Section FacadeAddress.

Import AccountsModule.

Variable al : IAccountLogic.

Lemma take_address_given (data : gmap string value) :
  truthy (get_prop data "address") = true ->
  take_address al data = (Ok (get_prop data "address"), delete "address" data).
Proof.
  intros Ha. unfold take_address. rewrite Ha. reflexivity.
Qed.

Lemma take_address_object (data : gmap string value) :
  snd (take_address al data)
  = if negb (truthy (get_prop data "address"))
       && negb (truthy (get_prop data "publicKey"))
    then data else delete "address" data.
Proof.
  unfold take_address.
  destruct (truthy (get_prop data "address")),
           (truthy (get_prop data "publicKey")); cbn [negb andb snd];
    rewrite ?delete_insert_eq; reflexivity.
Qed.

End FacadeAddress.

(** X9. When an object carries both an address and a public key, the
    writing entry points and [getAccount] disagree on which one counts.
    [setAccountAndGet], [mergeAccountAndGetSQL] and [mergeAccountAndGet] act
    on the address as given and derive nothing; [getAccount] overwrites the
    address with the one derived from the public key and reads that
    account. *)
Theorem key_and_address_precedence
  (al : IAccountLogic)
  (al_get_fields : gmap string value -> list string -> Outcome value)
  (data : gmap string value) (fields : option (list string)) :
  truthy (get_prop data "address") = true ->
  truthy (get_prop data "publicKey") = true ->
  let given := get_prop data "address" in
  let derived :=
    VStr (al_generateAddressByPublicKey al (get_prop data "publicKey")) in
  let rest := delete "address" data in
  AccountsModule.setAccountAndGet al data
  = (match al_set al given rest with
     | Failed msg => Err (Rejected msg)
     | Resolved _ => AccountsModule.lift_outcome (al_get al {["address" := given]})
     end, rest)
  /\ AccountsModule.mergeAccountAndGetSQL al data
     = (AccountsModule.lift_outcome (al_merge al given rest false), rest)
  /\ AccountsModule.mergeAccountAndGet al data
     = (AccountsModule.lift_outcome (al_merge al given rest true), rest)
  /\ (let filter := delete "publicKey" (<["address" := derived]> data) in
      AccountsModule_reads.getAccount al al_get_fields data fields
      = (AccountsModule_reads.accountLogic_get al al_get_fields filter fields,
         filter)
      /\ get_prop filter "address" = derived
      /\ get_prop filter "publicKey" = VUndefined).
Proof.
  intros Ha Hp. cbv zeta.
  unfold AccountsModule.setAccountAndGet, AccountsModule.mergeAccountAndGetSQL,
    AccountsModule.mergeAccountAndGet, AccountsModule_reads.getAccount.
  rewrite (take_address_given al data Ha), Hp.
  split; [destruct (al_set al _ _); reflexivity |].
  split; [reflexivity |]. split; [reflexivity |].
  split; [reflexivity |]. unfold get_prop. split.
  - rewrite lookup_delete_ne by discriminate. rewrite lookup_insert_eq.
    reflexivity.
  - rewrite lookup_delete_eq. reflexivity.
Qed.

Lemma key_and_address_example :
  let data : gmap string value :=
    <["address" := VStr "1R"]> {["publicKey" := VStr "ab"]} in
  fst (AccountsModule.mergeAccountAndGet Example.logic data) = Ok (VStr "1R")
  /\ fst (AccountsModule_reads.getAccount Example.logic
            (fun _ _ => Failed "unused") data None)
     = Resolved (VStr "abR").
Proof.
  intros data.
  destruct (key_and_address_precedence Example.logic (fun _ _ => Failed "unused")
              data None eq_refl eq_refl)
    as (_ & _ & Hm & Hg & _).
  rewrite Hm, Hg. split; reflexivity.
Defined.

(** X10. What the caller's object looks like after a call of the facade.
    After [setAccountAndGet], [mergeAccountAndGetSQL] and
    [mergeAccountAndGet] it is the object without its address property, also
    when the address was derived inside the call, and the object untouched
    when the call throws for want of both; every other property, the public
    key included, stays. After [getAccount] no usable public key is left in
    the filter, and every property other than address and publicKey is as it
    was; [getAccounts] leaves its filter alone. *)
Theorem caller_object_after_the_facade
  (al : IAccountLogic)
  (al_get_fields : gmap string value -> list string -> Outcome value)
  (al_getAll : gmap string value -> list string -> Outcome (list value))
  (data : gmap string value) (fields : option (list string))
  (fs : list string) :
  let after_write :=
    if negb (truthy (get_prop data "address"))
       && negb (truthy (get_prop data "publicKey"))
    then data else delete "address" data in
  let after_read :=
    snd (AccountsModule_reads.getAccount al al_get_fields data fields) in
  snd (AccountsModule.setAccountAndGet al data) = after_write
  /\ snd (AccountsModule.mergeAccountAndGetSQL al data) = after_write
  /\ snd (AccountsModule.mergeAccountAndGet al data) = after_write
  /\ truthy (get_prop after_read "publicKey") = false
  /\ (forall k, k <> "address"%string -> k <> "publicKey"%string ->
      after_read !! k = data !! k)
  /\ snd (AccountsModule_reads.getAccounts al_getAll data fs) = data.
Proof.
  cbv zeta. rewrite <- (take_address_object al data).
  unfold AccountsModule.setAccountAndGet, AccountsModule.mergeAccountAndGetSQL,
    AccountsModule.mergeAccountAndGet, AccountsModule_reads.getAccount.
  destruct (AccountsModule.take_address al data) as [[a | e] d]; cbn [snd].
  - split; [destruct (al_set al a d); reflexivity |].
    split; [reflexivity |]. split; [reflexivity |].
    destruct (truthy (get_prop data "publicKey")) eqn:Hp.
    + split; [| split; [| reflexivity]].
      * unfold get_prop. rewrite lookup_delete_eq. reflexivity.
      * intros k Ha Hk. rewrite lookup_delete_ne by congruence.
        rewrite lookup_insert_ne by congruence. reflexivity.
    + split; [exact Hp | split; reflexivity].
  - split; [reflexivity |]. split; [reflexivity |]. split; [reflexivity |].
    destruct (truthy (get_prop data "publicKey")) eqn:Hp.
    + split; [| split; [| reflexivity]].
      * unfold get_prop. rewrite lookup_delete_eq. reflexivity.
      * intros k Ha Hk. rewrite lookup_delete_ne by congruence.
        rewrite lookup_insert_ne by congruence. reflexivity.
    + split; [exact Hp | split; reflexivity].
Qed.

(* ===================================================================== *)
(** * The request logger *)
(* ===================================================================== *)

Section LoggerFacts.

Import RequestLogger.

(** A string that starts with a prefix has the characters of the prefix. *)
Lemma startsWith_get (s p : string) (n : nat) (c : ascii) :
  startsWith s p = true -> String.get n p = Some c -> String.get n s = Some c.
Proof.
  unfold startsWith. revert s n.
  induction p as [| a p IH]; intros s n Hp Hg; [discriminate Hg |].
  destruct s as [| b s]; [discriminate Hp |].
  cbn [String.prefix] in Hp.
  destruct (ascii_dec a b) as [<- | Hab]; [| discriminate Hp].
  destruct n as [| n]; [exact Hg |].
  cbn [String.get] in *. exact (IH s n Hp Hg).
Qed.

(** The three prefixes differ in their seventh character, so a url starts
    with one of them at most. *)
Lemma valid_prefixes_exclusive (u : string) :
  (length (List.filter (fun prefix => startsWith u prefix) valid_prefixes)
   <= 1)%nat.
Proof.
  unfold valid_prefixes. cbn [List.filter].
  destruct (startsWith u "/peer/signatures") eqn:H1,
           (startsWith u "/peer/transactions") eqn:H2,
           (startsWith u "/peer/blocks") eqn:H3; cbn [length]; try lia.
  all: exfalso.
  all: try (pose proof (startsWith_get u _ 6 _ H1 eq_refl) as G1).
  all: try (pose proof (startsWith_get u _ 6 _ H2 eq_refl) as G2).
  all: try (pose proof (startsWith_get u _ 6 _ H3 eq_refl) as G3).
  all: congruence.
Qed.

Lemma one_valid_prefix (u : string) :
  Nat.eqb (length (List.filter (fun prefix => startsWith u prefix) valid_prefixes)) 1
  = existsb (fun prefix => startsWith u prefix) valid_prefixes.
Proof.
  pose proof (valid_prefixes_exclusive u) as Hle. revert Hle.
  unfold valid_prefixes. cbn [List.filter existsb].
  destruct (startsWith u "/peer/signatures"),
           (startsWith u "/peer/transactions"),
           (startsWith u "/peer/blocks"); cbn [length]; intros Hle;
    try reflexivity; lia.
Qed.

End LoggerFacts.

(** X11. [shouldLog] says yes exactly when the logger is enabled, the
    last block is not below the minimum height, the method is POST in any
    capitalisation, and the url starts with one of '/peer/signatures',
    '/peer/transactions' and '/peer/blocks'. No url starts with two of them,
    so the count of matching prefixes that the code compares with 1 is never
    more than 1. *)
Theorem shouldLog_spec
  (this : RequestLogger.Fields) (lastBlockHeight : Z)
  (req : RequestLogger.Request) :
  let matching :=
    List.filter (fun prefix => RequestLogger.startsWith (RequestLogger.url req) prefix)
      RequestLogger.valid_prefixes in
  (length matching <= 1)%nat
  /\ (RequestLogger.shouldLog this lastBlockHeight req = true
      <-> RequestLogger.isEnabled this = true
          /\ (forall m, RequestLogger.minHeight this = Some m -> m <= lastBlockHeight)
          /\ RequestLogger.toLowerCase (RequestLogger.method req) = "post"%string
          /\ exists prefix,
               In prefix RequestLogger.valid_prefixes
               /\ RequestLogger.startsWith (RequestLogger.url req) prefix = true).
Proof.
  cbv zeta. split; [apply valid_prefixes_exclusive |].
  unfold RequestLogger.shouldLog. cbv zeta.
  rewrite one_valid_prefix.
  destruct (RequestLogger.isEnabled this); cbn [negb orb].
  2: { split; [discriminate | intros [H _]; discriminate H]. }
  destruct (String.eqb_spec
              (RequestLogger.toLowerCase (RequestLogger.method req)) "post")
    as [Hm | Hm]; cbn [negb].
  2: { rewrite orb_true_r. split; [discriminate | tauto]. }
  rewrite orb_false_r.
  destruct (RequestLogger.minHeight this) as [m |].
  - destruct (Z.ltb_spec lastBlockHeight m) as [Hlt | Hge].
    + split; [discriminate |].
      intros (_ & Hmin & _). specialize (Hmin m eq_refl). lia.
    + rewrite existsb_exists. split.
      * intros Hex. repeat split; try assumption.
        intros m' [= <-]. exact Hge.
      * intros (_ & _ & _ & Hex). exact Hex.
  - rewrite existsb_exists. split.
    + intros Hex. repeat split; try assumption. discriminate.
    + intros (_ & _ & _ & Hex). exact Hex.
Qed.

(** X12. The constructor reads [this.appConfig], a property that is
    injected only once the constructor has returned: with the property
    still undefined it throws the TypeError of that read and has assigned no
    field and called nothing. Given a configuration, whenever it returns it
    leaves a logger that is enabled only with the stream it opened, and it
    has written nothing and not called [next]. On every logger that is
    enabled only with a stream, [use] never fails and calls [next] once and
    last; it writes one line to that stream when [shouldLog] says yes and
    nothing otherwise. On a logger that is enabled without a stream, a
    request that is to be logged makes [use] throw before [next] is
    called. *)
Theorem use_calls_next_on_a_sound_logger
  (fs_createWriteStream : string -> Outcome RequestLogger.WriteStream)
  (JSON_stringify : RequestLogger.LineObj -> string) (Date_now : Z) :
  (forall this_logger,
     RequestLogger.constructor fs_createWriteStream None this_logger
     = (Err (TypeError_nullish "this.appConfig" "requestLogger"), []))
  /\ (forall appConfig this_logger this calls,
        RequestLogger.constructor fs_createWriteStream (Some appConfig) this_logger
        = (Ok this, calls) ->
        (RequestLogger.isEnabled this = true ->
         RequestLogger.enabled appConfig = true
         /\ exists stream,
              fs_createWriteStream (RequestLogger.logFileName appConfig)
              = Resolved stream
              /\ RequestLogger.logStream this = Some stream)
        /\ existsb RequestLogger.is_write calls = false
        /\ existsb RequestLogger.is_next calls = false)
  /\ (forall this lastBlockHeight request,
        (RequestLogger.isEnabled this = true ->
         RequestLogger.logStream this <> None) ->
        let r :=
          RequestLogger.use JSON_stringify Date_now this lastBlockHeight request in
        fst r = Ok tt
        /\ last (snd r) = Some RequestLogger.Next
        /\ length (List.filter RequestLogger.is_next (snd r)) = 1%nat
        /\ length (List.filter RequestLogger.is_write (snd r))
           = (if RequestLogger.shouldLog this lastBlockHeight request
              then 1 else 0)%nat
        /\ (forall stream line,
              In (RequestLogger.StreamWrite stream line) (snd r) ->
              RequestLogger.logStream this = Some stream))
  /\ (forall this lastBlockHeight request,
        RequestLogger.shouldLog this lastBlockHeight request = true ->
        RequestLogger.logStream this = None ->
        RequestLogger.use JSON_stringify Date_now this lastBlockHeight request
        = (Err (TypeError_nullish "this.logStream" "write"), [])).
Proof.
  split; [reflexivity |]. split; [| split].
  - intros appConfig this_logger this calls.
    unfold RequestLogger.constructor.
    destruct (RequestLogger.enabled appConfig) eqn:Hen.
    + destruct (fs_createWriteStream _) as [stream | [stack |]] eqn:Hcr.
      * intros [= <- <-]. cbn. split; [| split; reflexivity].
        intros _. split; [reflexivity |]. exists stream. split; reflexivity.
      * destruct this_logger; cbn [negb]; [| discriminate].
        intros [= <- <-]. cbn. split; [discriminate | split; reflexivity].
      * destruct this_logger; discriminate.
    + intros [= <- <-]. cbn. split; [discriminate | split; reflexivity].
  - intros this lastBlockHeight request Hsound. cbv zeta.
    unfold RequestLogger.use, RequestLogger.log.
    destruct (RequestLogger.shouldLog this lastBlockHeight request) eqn:Hlog.
    + assert (Hen : RequestLogger.isEnabled this = true).
      { unfold RequestLogger.shouldLog in Hlog.
        destruct (RequestLogger.isEnabled this); [reflexivity | discriminate]. }
      destruct (RequestLogger.logStream this) as [stream |] eqn:Hst;
        [| exfalso; exact (Hsound Hen eq_refl)].
      cbn [fst snd app last List.filter RequestLogger.is_next
           RequestLogger.is_write length].
      do 4 (split; [reflexivity |]).
      intros st line [H | [H | []]]; try discriminate H.
      injection H as <- _. reflexivity.
    + cbn [fst snd app last List.filter RequestLogger.is_next
           RequestLogger.is_write length].
      do 4 (split; [reflexivity |]).
      intros st line [H | []]; discriminate H.
  - intros this lastBlockHeight request Hlog Hst.
    unfold RequestLogger.use, RequestLogger.log. rewrite Hlog, Hst. reflexivity.
Qed.

Lemma sound_logger_example :
  let fs_createWriteStream := fun path : string => Resolved path in
  let appConfig :=
    {| RequestLogger.enabled := true;
       RequestLogger.logFileName := "requests.log";
       RequestLogger.cfg_minHeight := None |} in
  let this :=
    {| RequestLogger.isEnabled := true;
       RequestLogger.logStream := Some "requests.log"%string;
       RequestLogger.minHeight := Some 0 |} in
  let request :=
    {| RequestLogger.method := "POST"; RequestLogger.url := "/peer/blocks";
       RequestLogger.body := "00"; RequestLogger.headers := [];
       RequestLogger.query := [] |} in
  let r := RequestLogger.use (fun _ => "{}"%string) 0 this 5 request in
  RequestLogger.constructor fs_createWriteStream None true
  = (Err (TypeError_nullish "this.appConfig" "requestLogger"), [])
  /\ RequestLogger.constructor fs_createWriteStream (Some appConfig) true
     = (Ok this, [])
  /\ fst r = Ok tt
  /\ last (snd r) = Some RequestLogger.Next
  /\ length (List.filter RequestLogger.is_write (snd r)) = 1%nat.
Proof.
  cbv zeta.
  destruct (use_calls_next_on_a_sound_logger
              (fun path : string => Resolved path) (fun _ => "{}"%string) 0)
    as (Hnew & _ & Huse & _).
  split; [exact (Hnew true) |]. split; [reflexivity |].
  destruct (Huse
              {| RequestLogger.isEnabled := true;
                 RequestLogger.logStream := Some "requests.log"%string;
                 RequestLogger.minHeight := Some 0 |} 5
              {| RequestLogger.method := "POST";
                 RequestLogger.url := "/peer/blocks";
                 RequestLogger.body := "00"; RequestLogger.headers := [];
                 RequestLogger.query := [] |})
    as (H1 & H2 & _ & H4 & _); [intros _; discriminate |].
  split; [exact H1 |]. split; [exact H2 | exact H4].
Defined.

(* ===================================================================== *)
(** * The transport API *)
(* ===================================================================== *)

(** ** The ids of [getBlocksCommon] *)

Section Ids.

Import TransportV2API.

Lemma all_digits_cons c s :
  all_digits (String c s) = true -> is_digit c = true /\ all_digits s = true.
Proof. cbn [all_digits]. apply andb_true_iff. Qed.

Lemma numeric_all_digits id : numeric id = true -> all_digits id = true.
Proof. destruct id; [discriminate | trivial]. Qed.

Lemma is_digit_not_quote c : is_digit c = true -> is_quote c = false.
Proof.
  unfold is_digit, is_quote.
  destruct (Ascii.eqb_spec c "039") as [-> | _]; [discriminate |].
  destruct (Ascii.eqb_spec c "034") as [-> | _]; [discriminate |].
  reflexivity.
Qed.

Lemma is_digit_not_comma c : is_digit c = true -> Ascii.eqb c "," = false.
Proof.
  unfold is_digit.
  destruct (Ascii.eqb_spec c ",") as [-> | _]; [discriminate | reflexivity].
Qed.

Lemma remove_quotes_app a b :
  remove_quotes (a ++ b) = (remove_quotes a ++ remove_quotes b)%string.
Proof.
  induction a as [| c a IH]; [reflexivity |].
  simpl. rewrite IH.
  destruct (is_quote c); reflexivity.
Qed.

Lemma remove_quotes_digits s : all_digits s = true -> remove_quotes s = s.
Proof.
  induction s as [| c s IH]; [reflexivity |].
  intros H. apply all_digits_cons in H as [Hc Hs].
  cbn [remove_quotes]. rewrite (is_digit_not_quote c Hc), (IH Hs). reflexivity.
Qed.

(** A piece of digits is split off at the comma that follows it. *)
Lemma split_comma_digits_comma a s :
  all_digits a = true ->
  split_comma (a ++ String "," s) = a :: split_comma s.
Proof.
  induction a as [| c a IH]; intros H; [reflexivity |].
  apply all_digits_cons in H as [Hc Ha].
  simpl.
  rewrite (is_digit_not_comma c Hc), (IH Ha). reflexivity.
Qed.

Lemma split_comma_digits a : all_digits a = true -> split_comma a = [a].
Proof.
  induction a as [| c a IH]; intros H; [reflexivity |].
  apply all_digits_cons in H as [Hc Ha].
  cbn [split_comma]. rewrite (is_digit_not_comma c Hc), (IH Ha). reflexivity.
Qed.

Lemma split_comma_concat (l : list string) :
  Forall (fun id => numeric id = true) l ->
  l <> [] ->
  split_comma (String.concat "," l) = l.
Proof.
  induction 1 as [| id l Hid Hl IH]; intros Hne; [contradiction |].
  apply numeric_all_digits in Hid.
  destruct l as [| id' l'].
  - cbn [String.concat]. apply split_comma_digits. exact Hid.
  - change (String.concat "," (id :: id' :: l'))
      with (id ++ String "," (String.concat "," (id' :: l')))%string.
    rewrite (split_comma_digits_comma _ _ Hid), IH by discriminate.
    reflexivity.
Qed.

Lemma remove_quotes_concat (l : list string) :
  Forall (fun id => numeric id = true) l ->
  remove_quotes (String.concat "," l) = String.concat "," l.
Proof.
  induction 1 as [| id l Hid Hl IH]; [reflexivity |].
  apply numeric_all_digits in Hid.
  destruct l as [| id' l'].
  - cbn [String.concat]. apply remove_quotes_digits. exact Hid.
  - change (String.concat "," (id :: id' :: l'))
      with (id ++ String "," (String.concat "," (id' :: l')))%string.
    rewrite remove_quotes_app. cbn [remove_quotes is_quote].
    rewrite (remove_quotes_digits _ Hid).
    change (is_quote ",") with false. cbn iota.
    rewrite IH. reflexivity.
Qed.

Lemma filter_numeric_all (l : list string) :
  Forall (fun id => numeric id = true) l -> List.filter numeric l = l.
Proof.
  induction 1 as [| id l Hid Hl IH]; [reflexivity |].
  cbn [List.filter]. rewrite Hid, IH. reflexivity.
Qed.

Lemma escapedIds_of_clean (s : string) (l : list string) :
  Forall (fun id => numeric id = true) l ->
  remove_quotes s = String.concat "," l ->
  escapedIds s = l.
Proof.
  intros Hl Hs. unfold escapedIds. rewrite Hs.
  destruct l as [| id l']; [reflexivity |].
  rewrite split_comma_concat by (trivial; discriminate).
  apply filter_numeric_all. exact Hl.
Qed.

Lemma remove_quotes_quoted_concat (q : ascii) (l : list string) :
  is_quote q = true ->
  Forall (fun id => numeric id = true) l ->
  remove_quotes (String.concat "," (map (quoted q) l)) = String.concat "," l.
Proof.
  intros Hq. induction 1 as [| id l Hid Hl IH]; [reflexivity |].
  apply numeric_all_digits in Hid.
  assert (Hone : remove_quotes (quoted q id) = id).
  { unfold quoted. cbn [remove_quotes]. rewrite Hq, remove_quotes_app.
    cbn [remove_quotes]. rewrite Hq, (remove_quotes_digits _ Hid).
    clear. induction id as [| c id IH]; [reflexivity |].
    change (String c id ++ EmptyString)%string
      with (String c (id ++ EmptyString))%string.
    f_equal. exact IH. }
  destruct l as [| id' l'].
  - cbn [map String.concat]. exact Hone.
  - change (String.concat "," (map (quoted q) (id :: id' :: l')))
      with (quoted q id
            ++ String "," (String.concat "," (map (quoted q) (id' :: l'))))%string.
    change (String.concat "," (id :: id' :: l'))
      with (id ++ String "," (String.concat "," (id' :: l')))%string.
    rewrite remove_quotes_app, Hone. cbn [remove_quotes].
    change (is_quote ",") with false. cbn iota.
    rewrite IH. reflexivity.
Qed.

End Ids.

(** X13. The ids that [getBlocksCommon] keeps are what the peer listed:
    for every list of ids that are runs of decimal digits, joining them with
    commas, bare or each between single or double quotes, and cleaning the
    string gives the list back, in its order. *)
Theorem escapedIds_round_trip (l : list string) :
  Forall (fun id => TransportV2API.numeric id = true) l ->
  TransportV2API.escapedIds (String.concat "," l) = l
  /\ TransportV2API.escapedIds (String.concat "," (map (quoted "039") l)) = l
  /\ TransportV2API.escapedIds (String.concat "," (map (quoted "034") l)) = l.
Proof.
  intros Hl. repeat split; apply escapedIds_of_clean; trivial.
  - apply remove_quotes_concat. exact Hl.
  - apply remove_quotes_quoted_concat; trivial.
  - apply remove_quotes_quoted_concat; trivial.
Qed.

Lemma escapedIds_example :
  TransportV2API.escapedIds "'12','7'" = ["12"; "7"]%string
  /\ TransportV2API.escapedIds "12,7" = ["12"; "7"]%string.
Proof.
  destruct (escapedIds_round_trip ["12"; "7"]%string) as (H1 & H2 & _).
  - repeat constructor.
  - split; [exact H2 | exact H1].
Defined.

(** ** The handlers *)

Section Handlers.

Import TransportV2API.

Context {BytesTransaction BaseTransaction TransportTransaction : Type}.
Context {BytesBlock Block PeerType : Type}.

Variable node :
  Node BytesTransaction BaseTransaction TransportTransaction BytesBlock Block
    PeerType.

Lemma convert_map (l : list BytesTransaction) :
  snd (h_map (toTransport node) l) = []
  /\ forall txs,
       fst (h_map (toTransport node) l) = Returned txs ->
       Forall2
         (fun tx t =>
            exists base,
              transactionLogic_fromBytes node tx = Resolved base
              /\ toTransportTransaction node base = Resolved t)
         l txs.
Proof.
  induction l as [| tx l [IHc IHr]].
  - split; [reflexivity |]. intros txs [= <-]. constructor.
  - cbn [h_map]. unfold toTransport at 1 3. unfold h_bind at 1 2 4 5, h_await.
    destruct (transactionLogic_fromBytes node tx) as [base | m] eqn:Hb;
      cbn [h_ret h_throw fst snd];
      [| split; [reflexivity | discriminate]].
    destruct (toTransportTransaction node base) as [t | m] eqn:Ht;
      cbn [h_ret h_throw fst snd app];
      [| split; [reflexivity | discriminate]].
    unfold h_bind.
    destruct (h_map (toTransport node) l) as [[bs | e] c]; cbn [fst snd] in *; subst c;
      cbn [h_ret fst snd app].
    + split; [reflexivity |]. intros txs [= <-].
      constructor; [exists base; split; assumption | apply IHr; reflexivity].
    + split; [reflexivity | discriminate].
Qed.

Lemma finalSig_map (l : list Signature) :
  snd (h_map (finalSig (TransportTransaction := TransportTransaction)
                (BytesBlock := BytesBlock) (Block := Block)
                (PeerType := PeerType)) l) = []
  /\ forall sigs,
       fst (h_map (finalSig (TransportTransaction := TransportTransaction)
                     (BytesBlock := BytesBlock) (Block := Block)
                     (PeerType := PeerType)) l) = Returned sigs ->
       Forall2
         (fun sigEl p =>
            exists signature,
              sig_signature sigEl = Some signature
              /\ p = (Buffer_toString_hex signature,
                      JS.decimal (sig_transaction sigEl)))
         l sigs.
Proof.
  induction l as [| sigEl l [IHc IHr]].
  - split; [reflexivity |]. intros sigs [= <-]. constructor.
  - cbn [h_map]. unfold finalSig at 1 3. unfold h_bind at 1 3.
    destruct (sig_signature sigEl) as [signature |] eqn:Hs;
      cbn [h_ret h_throw fst snd app];
      [| split; [reflexivity | discriminate]].
    unfold h_bind.
    destruct (h_map finalSig l) as [[bs | e] c]; cbn [fst snd] in *; subst c;
      cbn [h_ret fst snd app].
    + split; [reflexivity |]. intros sigs [= <-].
      constructor; [exists signature; split; trivial | apply IHr; reflexivity].
    + split; [reflexivity | discriminate].
Qed.

End Handlers.

(** The runs of a handler, by cases on what the collaborators answer. *)
Ltac handler_step :=
  match goal with
  | |- context [match ?x with Resolved _ => _ | Failed _ => _ end] =>
      destruct x eqn:?
  | |- context [match ?x with Some _ => _ | None => _ end] => destruct x eqn:?
  | |- context [if ?b then _ else _] => destruct b eqn:?
  end.

Ltac handler_cases :=
  unfold TransportV2API.h_bind, TransportV2API.h_try, TransportV2API.h_call,
    TransportV2API.h_await, TransportV2API.getResponse,
    TransportV2API.parseRequest, TransportV2API.h_ret, TransportV2API.h_throw;
  cbn [fst snd app];
  repeat (handler_step; cbn [fst snd app]).

(** X14. [getBlocksCommon] asks the block store only for ids that are
    runs of decimal digits, at least one and at most ten of them, and then
    removes no peer; it removes the peer exactly when the cleaned list is
    empty or longer than ten, and then does nothing else: the store is not
    asked and the call throws the APIError 'Invalid block id sequence' with
    code 200. *)
Theorem getBlocksCommon_ids
  {BytesTransaction BaseTransaction TransportTransaction BytesBlock Block
   PeerType : Type}
  (node : TransportV2API.Node BytesTransaction BaseTransaction
            TransportTransaction BytesBlock Block PeerType)
  (ids : string) (req : TransportV2API.Request) :
  let r := TransportV2API.getBlocksCommon node ids req in
  let n := length (TransportV2API.escapedIds ids) in
  let remove :=
    TransportV2API.peersModule_remove (TransportV2API.req_ip req)
      (TransportV2API.parseInt10 (TransportV2API.req_headers_port req)) in
  (forall ids',
     In (TransportV2API.BlocksModel_findOne ids') (snd r) ->
     ids' = TransportV2API.escapedIds ids
     /\ (1 <= n <= 10)%nat
     /\ Forall (fun id => TransportV2API.numeric id = true) ids'
     /\ existsb is_remove (snd r) = false)
  /\ (existsb is_remove (snd r) = true ->
      (n = 0 \/ 10 < n)%nat
      /\ r = (TransportV2API.Threw
                (TransportV2API.APIError "Invalid block id sequence" 200),
              [remove]))
  /\ ((n = 0 \/ 10 < n)%nat -> existsb is_remove (snd r) = true).
Proof.
  cbv zeta. unfold TransportV2API.getBlocksCommon.
  assert (Hnum : Forall (fun id => TransportV2API.numeric id = true)
                   (TransportV2API.escapedIds ids)).
  { unfold TransportV2API.escapedIds. apply Forall_forall. intros id Hid.
    apply list_elem_of_In, filter_In in Hid. tauto. }
  destruct (Nat.eqb_spec (length (TransportV2API.escapedIds ids)) 0) as [H0 | H0];
    [| destruct (Nat.ltb_spec 10 (length (TransportV2API.escapedIds ids)))
         as [H10 | H10]];
    cbn [orb].
  1, 2: split; [intros ids' [H | []]; discriminate H |];
        split; [intros _; split; [lia | reflexivity] | reflexivity].
  handler_cases.
  all: split; [| split; [discriminate | lia]].
  all: intros ids' Hin; pick_effect Hin; injection Hin as <-.
  all: repeat split; try lia; assumption.
Qed.

(** X15. What [postBlock] answers and calls, case by case. When the body
    is no buffer, does not decode, or its block cannot be read or normalised,
    the peer of the request is removed, nothing else is called, and the error
    is thrown on: the error of [parseRequest], or the one that the block
    logic threw. Otherwise the normalised block is handed to the bus first
    and the peer is not removed: when the bus rejects, that is thrown and
    nothing more is called; when it resolves, the answer is the encoded
    response with the id of the block, or the encoding error. So every
    posted block costs the sender its place or reaches the bus, never both
    and never neither. *)
Theorem postBlock_removes_or_relays
  {BytesTransaction BaseTransaction TransportTransaction BytesBlock Block
   PeerType : Type}
  (node : TransportV2API.Node BytesTransaction BaseTransaction
            TransportTransaction BytesBlock Block PeerType)
  (req : TransportV2API.Request) :
  let r := TransportV2API.postBlock node req in
  let remove :=
    TransportV2API.peersModule_remove (TransportV2API.req_ip req)
      (TransportV2API.parseInt10 (TransportV2API.req_headers_port req)) in
  let thrown e := TransportV2API.Threw (TransportV2API.Other e) in
  r = match TransportV2API.req_body req with
      | VBuf buf =>
          match TransportV2API.decode_block node buf "transportBlocks"
                  (Some "transportBlock"%string) with
          | Failed _ =>
              (thrown
                 (JsError
                    "Invalid binary data for message transportBlocks transportBlock"),
               [remove])
          | Resolved msg =>
              match TransportV2API.blockLogic_fromBytes node
                      (TransportV2API.pb_block msg) with
              | Failed e => (thrown (Rejected e), [remove])
              | Resolved raw =>
                  match TransportV2API.blockLogic_objectNormalize node raw with
                  | Failed e => (thrown (Rejected e), [remove])
                  | Resolved b =>
                      let relay := TransportV2API.bus_message_receiveBlock b in
                      let payload :=
                        TransportV2API.BlockResponse true
                          (TransportV2API.block_id node b) in
                      let ty := Some "transportBlockResponse"%string in
                      match TransportV2API.receiveBlock_outcome node b with
                      | Failed e => (thrown (Rejected e), [relay])
                      | Resolved _ =>
                          if TransportV2API.protoBuf_validate node payload
                               "transportBlocks" ty
                          then
                            (TransportV2API.Returned
                               (TransportV2API.encoded node payload
                                  "transportBlocks" ty),
                             [relay;
                              TransportV2API.protoBuf_encode payload
                                "transportBlocks" ty])
                          else
                            (thrown
                               (JsError
                                  ("Failed to encode response - "
                                   ++ TransportV2API.protoBuf_lastError node
                                        payload "transportBlocks" ty)),
                             [relay])
                      end
                  end
              end
          end
      | _ => (thrown (JsError "No binary data in request body"), [remove])
      end
  /\ existsb is_remove (snd r) = negb (existsb is_receiveBlock (snd r))
  /\ (existsb is_remove (snd r) = true -> snd r = [remove])
  /\ (existsb is_receiveBlock (snd r) = true ->
      exists b rest, snd r = TransportV2API.bus_message_receiveBlock b :: rest).
Proof.
  cbv zeta. unfold TransportV2API.postBlock.
  destruct (TransportV2API.req_body req) as [| | | | | buf] eqn:Hbody;
    handler_cases.
  all: split; [reflexivity |]; split; [reflexivity |].
  all: split; [intros H; first [reflexivity | discriminate H] |].
  all: intros H; first [discriminate H | do 2 eexists; reflexivity].
Qed.

(** X16. Whatever [postTransactions] hands to the transport module is
    the whole chosen list, converted: the single transaction of the message
    when there is one, whatever the list says, and else the list. Nothing is
    handed over when the list is empty or when one of its transactions does
    not convert; the peer is the one made from the ip and the port header of
    the request, and the broadcast flag is up. *)
Theorem postTransactions_receives
  {BytesTransaction BaseTransaction TransportTransaction BytesBlock Block
   PeerType : Type}
  (node : TransportV2API.Node BytesTransaction BaseTransaction
            TransportTransaction BytesBlock Block PeerType)
  (req : TransportV2API.Request)
  (txs : list TransportTransaction) (peer : PeerType) (broadcast : bool) :
  In (TransportV2API.transportModule_receiveTransactions txs peer broadcast)
    (snd (TransportV2API.postTransactions node req)) ->
  broadcast = true
  /\ peer = TransportV2API.peersLogic_create node (TransportV2API.req_ip req)
              (TransportV2API.parseInt10 (TransportV2API.req_headers_port req))
  /\ txs <> []
  /\ exists buf msg,
       TransportV2API.req_body req = VBuf buf
       /\ TransportV2API.decode_transactions node buf "transportTransactions" None
          = Resolved msg
       /\ let converted (l : list BytesTransaction) :=
            Forall2
              (fun tx t =>
                 exists base,
                   TransportV2API.transactionLogic_fromBytes node tx = Resolved base
                   /\ TransportV2API.toTransportTransaction node base = Resolved t)
              l txs in
          match TransportV2API.pt_transaction msg with
          | Some transaction => converted [transaction]
          | None =>
              exists l, TransportV2API.pt_transactions msg = Some l /\ converted l
          end.
Proof.
  unfold TransportV2API.postTransactions.
  destruct (TransportV2API.req_body req) as [| | | | | buf] eqn:Hbody;
    try (intros []).
  unfold TransportV2API.parseRequest.
  destruct (TransportV2API.decode_transactions node buf _ _) as [msg | m] eqn:Hdec;
    [| intros []].
  unfold TransportV2API.h_bind at 1. cbn [TransportV2API.h_ret].
  destruct (TransportV2API.pt_transaction msg) as [transaction |] eqn:Ht;
    [| destruct (TransportV2API.pt_transactions msg) as [l |] eqn:Hl].
  all: match goal with
       | |- context [TransportV2API.h_map ?f ?l] =>
           pose proof (convert_map node l) as [Hc Hr];
           destruct (TransportV2API.h_map f l) as [[txs' | e] c] eqn:Hmap
       end.
  all: cbn [fst snd] in Hc; subst c.
  all: handler_cases; intros Hin; pick_effect Hin.
  all: injection Hin as <- <- <-.
  all: specialize (Hr _ eq_refl).
  all: split; [reflexivity | split; [reflexivity |]].
  all: split;
    [ intros ->; inversion Hr; subst;
      match goal with
      | H : (0 <? length [])%nat = true |- _ => discriminate H
      end
    | exists buf, msg; split; [reflexivity | split; [exact Hdec |]];
      cbv zeta; rewrite Ht ].
  all: try exact Hr.
  all: try (exists l; split; [exact Hl | exact Hr]).
  all: match goal with
       | H : (0 <? length [])%nat = true |- _ => discriminate H
       end.
Qed.

Lemma postTransactions_example :
  let req := example_request (VBuf [Byte.x01]) in
  let r := TransportV2API.postTransactions example_node req in
  In (TransportV2API.transportModule_receiveTransactions ["01"%string]
        ("10.0.0.1"%string, JS.of_Z 5555) true) (snd r)
  /\ exists buf msg,
       TransportV2API.req_body req = VBuf buf
       /\ TransportV2API.decode_transactions example_node buf
            "transportTransactions" None = Resolved msg.
Proof.
  cbv zeta.
  assert (H : In (TransportV2API.transportModule_receiveTransactions
                    ["01"%string] ("10.0.0.1"%string, JS.of_Z 5555) true)
                (snd (TransportV2API.postTransactions example_node
                        (example_request (VBuf [Byte.x01]))))).
  { vm_compute. left. reflexivity. }
  split; [exact H |].
  destruct (postTransactions_receives _ _ _ _ _ H)
    as (_ & _ & _ & buf & msg & Hbody & Hdec & _).
  exists buf, msg. split; [exact Hbody | exact Hdec].
Defined.

(** X17. Whatever [postSignatures] hands to the transport module is the
    whole collection in its order, first the signatures of the list, then
    the single one, each with its signature in hexadecimal and its
    transaction id in decimal. Nothing is handed over unless the schema
    accepted the collection and every element carries a signature. *)
Theorem postSignatures_receives
  {BytesTransaction BaseTransaction TransportTransaction BytesBlock Block
   PeerType : Type}
  (node : TransportV2API.Node BytesTransaction BaseTransaction
            TransportTransaction BytesBlock Block PeerType)
  (body : value) (sigs : list (string * string)) :
  In (TransportV2API.transportModule_receiveSignatures sigs)
    (snd (TransportV2API.postSignatures node body)) ->
  exists buf obj,
    body = VBuf buf
    /\ TransportV2API.decode_signatures node buf "transportSignatures"
         (Some "postSignatures"%string) = Resolved obj
    /\ let collected :=
         default [] (TransportV2API.ps_signatures obj)
         ++ option_list (TransportV2API.ps_signature obj) in
       TransportV2API.assertValidSchema_signatures node collected = Resolved tt
       /\ Forall2
            (fun sigEl p =>
               exists signature,
                 TransportV2API.sig_signature sigEl = Some signature
                 /\ p = (Buffer_toString_hex signature,
                         JS.decimal (TransportV2API.sig_transaction sigEl)))
            collected sigs.
Proof.
  unfold TransportV2API.postSignatures.
  destruct body as [| | | | | buf]; try (intros []).
  unfold TransportV2API.parseRequest.
  destruct (TransportV2API.decode_signatures node buf _ _) as [obj | m] eqn:Hdec;
    [| intros []].
  unfold TransportV2API.h_bind at 1. cbn [TransportV2API.h_ret].
  intros Hin. exists buf, obj. split; [reflexivity | split; [exact Hdec |]].
  cbv zeta. revert Hin.
  destruct (TransportV2API.ps_signatures obj) as [l |],
           (TransportV2API.ps_signature obj) as [s |].
  all: match goal with
       | |- context [TransportV2API.h_map TransportV2API.finalSig ?c] =>
           pose proof (finalSig_map (TransportTransaction := TransportTransaction)
                         (BytesBlock := BytesBlock) (Block := Block)
                         (PeerType := PeerType) c) as [Hc Hr];
           destruct (TransportV2API.h_map TransportV2API.finalSig c)
             as [[sigs' | e] calls] eqn:Hmap
       end.
  all: cbn [fst snd] in Hc; subst calls.
  all: handler_cases; intros Hin; pick_effect Hin.
  all: injection Hin as <-.
  all: cbn [default option_list]; rewrite ?app_nil_r.
  all: split; [| exact (Hr _ eq_refl)].
  all: match goal with
       | E : _ = Resolved ?u |- _ = Resolved tt => destruct u; exact E
       end.
Qed.

Lemma postSignatures_example :
  let r := TransportV2API.postSignatures example_node (VBuf [Byte.xab]) in
  In (TransportV2API.transportModule_receiveSignatures
        [("ab", "7"); ("ab", "8")]%string) (snd r)
  /\ exists buf obj,
       VBuf [Byte.xab] = VBuf buf
       /\ TransportV2API.decode_signatures example_node buf "transportSignatures"
            (Some "postSignatures"%string) = Resolved obj.
Proof.
  cbv zeta.
  assert (H : In (TransportV2API.transportModule_receiveSignatures
                    [("ab", "7"); ("ab", "8")]%string)
                (snd (TransportV2API.postSignatures example_node
                        (VBuf [Byte.xab])))).
  { vm_compute. left. reflexivity. }
  split; [exact H |].
  destruct (postSignatures_receives _ _ _ H) as (buf & obj & Hbody & Hdec & _).
  exists buf, obj. split; [exact Hbody | exact Hdec].
Defined.

(** X18. A body that is not binary data, or that the decoder refuses,
    never gets past the first step of a posting handler, and the caller sees
    one of two messages of the controller, not the error of the decoder.
    [postSignatures] and [postTransactions] then call nothing; [postBlock]
    removes the peer. [postTransactions] names no message type, so its
    message ends in the word undefined. *)
Theorem unreadable_bodies
  {BytesTransaction BaseTransaction TransportTransaction BytesBlock Block
   PeerType : Type}
  (node : TransportV2API.Node BytesTransaction BaseTransaction
            TransportTransaction BytesBlock Block PeerType)
  (req : TransportV2API.Request) :
  let body := TransportV2API.req_body req in
  let remove :=
    TransportV2API.peersModule_remove (TransportV2API.req_ip req)
      (TransportV2API.parseInt10 (TransportV2API.req_headers_port req)) in
  let thrown (message : string) :=
    TransportV2API.Threw (A := Buffer) (TransportV2API.Other (JsError message)) in
  ((forall buf, body <> VBuf buf) ->
   TransportV2API.postSignatures node body
   = (thrown "No binary data in request body", [])
   /\ TransportV2API.postTransactions node req
      = (thrown "No binary data in request body", [])
   /\ TransportV2API.postBlock node req
      = (thrown "No binary data in request body", [remove]))
  /\ (forall buf, body = VBuf buf ->
      (forall m,
         TransportV2API.decode_signatures node buf "transportSignatures"
           (Some "postSignatures"%string) = Failed m ->
         TransportV2API.postSignatures node body
         = (thrown "Invalid binary data for message transportSignatures postSignatures",
            []))
      /\ (forall m,
            TransportV2API.decode_transactions node buf "transportTransactions"
              None = Failed m ->
            TransportV2API.postTransactions node req
            = (thrown "Invalid binary data for message transportTransactions undefined",
               []))
      /\ (forall m,
            TransportV2API.decode_block node buf "transportBlocks"
              (Some "transportBlock"%string) = Failed m ->
            TransportV2API.postBlock node req
            = (thrown "Invalid binary data for message transportBlocks transportBlock",
               [remove]))).
Proof.
  cbv zeta.
  unfold TransportV2API.postSignatures, TransportV2API.postTransactions,
    TransportV2API.postBlock, TransportV2API.parseRequest.
  split.
  - intros Hno.
    destruct (TransportV2API.req_body req) as [| | | | | buf];
      try (repeat split; reflexivity).
    exfalso. exact (Hno buf eq_refl).
  - intros buf ->. repeat split; intros m ->; reflexivity.
Qed.

Section Answers.

Import TransportV2API.

Context {BytesTransaction BaseTransaction TransportTransaction : Type}.
Context {BytesBlock Block PeerType : Type}.

Variable node :
  Node BytesTransaction BaseTransaction TransportTransaction BytesBlock Block
    PeerType.

Lemma quiet_ret {A : Type} (a : A) :
  quiet (h_ret a : H TransportTransaction BytesBlock Block PeerType A).
Proof. intros c []. Qed.

Lemma quiet_throw {A : Type} (t : Thrown) :
  quiet (h_throw t : H TransportTransaction BytesBlock Block PeerType A).
Proof. intros c []. Qed.

Lemma quiet_await {A : Type} (o : Outcome A) :
  quiet (h_await o : H TransportTransaction BytesBlock Block PeerType A).
Proof. destruct o; intros c []. Qed.

Lemma quiet_call (c : Call TransportTransaction BytesBlock Block PeerType) :
  is_encode c = false -> quiet (h_call c).
Proof. intros Hc c' [<- | []]. exact Hc. Qed.

Lemma quiet_bind {A B : Type} (m : H TransportTransaction BytesBlock Block PeerType A) (k : A -> H TransportTransaction BytesBlock Block PeerType B) :
  quiet m -> (forall a, quiet (k a)) -> quiet (h_bind m k).
Proof.
  intros Hm Hk c. destruct m as [[a | t] c1]; unfold h_bind.
  - specialize (Hk a). destruct (k a) as [r c2]. cbn [snd] in *.
    intros Hin. apply in_app_or in Hin as [Hin | Hin]; [apply Hm | apply Hk];
      exact Hin.
  - apply Hm.
Qed.

Lemma quiet_try {A : Type} (body : H TransportTransaction BytesBlock Block PeerType A) (handler : Thrown -> H TransportTransaction BytesBlock Block PeerType A) :
  quiet body -> (forall t, quiet (handler t)) -> quiet (h_try body handler).
Proof.
  intros Hm Hk c. destruct body as [[a | t] c1]; unfold h_try.
  - apply Hm.
  - specialize (Hk t). destruct (handler t) as [r c2]. cbn [snd] in *.
    intros Hin. apply in_app_or in Hin as [Hin | Hin]; [apply Hm | apply Hk];
      exact Hin.
Qed.

Lemma quiet_map {A B : Type} (f : A -> H TransportTransaction BytesBlock Block PeerType B) (l : list A) :
  (forall a, quiet (f a)) -> quiet (h_map f l).
Proof.
  intros Hf. induction l as [| a l IH]; [apply quiet_ret |].
  cbn [h_map]. apply quiet_bind; [apply Hf |]. intros b.
  apply quiet_bind; [exact IH |]. intros bs. apply quiet_ret.
Qed.

Lemma quiet_parseRequest {T : Type}
  (decode : Buffer -> string -> option string -> Outcome T) body ns ty :
  quiet (parseRequest decode body ns ty
         : H TransportTransaction BytesBlock Block PeerType T).
Proof.
  unfold parseRequest. destruct body; try apply quiet_throw.
  destruct (decode _ _ _); [apply quiet_ret | apply quiet_throw].
Qed.

Lemma validated_getResponse payload ns ty :
  validated_answer node (getResponse node payload ns ty).
Proof.
  unfold validated_answer, getResponse.
  destruct (protoBuf_validate node payload ns ty) eqn:Hv; cbn [fst snd].
  - split.
    + intros buf [= <-]. exists payload, ns, ty. repeat split. exact Hv.
    + intros p' ns' ty' [[= <- <- <-] | []]. split; [exact Hv | reflexivity].
  - split; [discriminate | intros p' ns' ty' []].
Qed.

Lemma validated_bind {A : Type} (m : H TransportTransaction BytesBlock Block PeerType A) (k : A -> H TransportTransaction BytesBlock Block PeerType Buffer) :
  quiet m -> (forall a, validated_answer node (k a)) ->
  validated_answer node (h_bind m k).
Proof.
  intros Hm Hk. destruct m as [[a | t] c1]; unfold h_bind.
  - specialize (Hk a). destruct (k a) as [r c2].
    destruct Hk as [Hret Hin]. cbn [fst snd] in *. split.
    + intros buf Hr. destruct (Hret buf Hr) as (p & ns & ty & Hlast & Hrest).
      exists p, ns, ty. split; [| exact Hrest].
      cbn [snd]. rewrite last_app, Hlast. reflexivity.
    + intros p ns ty H. cbn [fst snd] in *.
      apply in_app_or in H as [H | H]; [| exact (Hin _ _ _ H)].
      apply Hm in H. discriminate H.
  - split; [discriminate |]. cbn [fst snd]. intros p ns ty H.
    apply Hm in H. discriminate H.
Qed.

Lemma validated_throw (t : Thrown) : validated_answer node (h_throw t).
Proof. split; [discriminate | intros p ns ty []]. Qed.

Lemma postSignatures_validated body :
  validated_answer node (postSignatures node body).
Proof.
  unfold postSignatures.
  apply validated_bind; [apply quiet_parseRequest |]. intros obj. cbv zeta.
  apply validated_bind; [apply quiet_await |]. intros _.
  apply validated_bind.
  { apply quiet_map. intros sigEl. unfold finalSig.
    destruct (sig_signature sigEl); [apply quiet_ret | apply quiet_throw]. }
  intros finalSigs.
  apply validated_bind; [apply quiet_call; reflexivity |]. intros _.
  apply validated_bind; [apply quiet_await |]. intros _.
  apply validated_getResponse.
Qed.

Lemma postTransactions_validated req :
  validated_answer node (postTransactions node req).
Proof.
  unfold postTransactions.
  apply validated_bind; [apply quiet_parseRequest |]. intros requestData.
  cbv zeta. apply validated_bind; [| intros _; apply validated_getResponse].
  destruct (0 <? length _)%nat; [| apply quiet_ret].
  apply quiet_bind.
  { apply quiet_map. intros tx. unfold toTransport.
    apply quiet_bind; [apply quiet_await |]. intros base. apply quiet_await. }
  intros txs. apply quiet_bind; [apply quiet_call; reflexivity |].
  intros _. apply quiet_await.
Qed.

Lemma getBlocksCommon_validated ids req :
  validated_answer node (getBlocksCommon node ids req).
Proof.
  unfold getBlocksCommon. cbv zeta. destruct (_ || _).
  - apply validated_bind; [apply quiet_call; reflexivity |]. intros _.
    apply validated_throw.
  - apply validated_bind; [apply quiet_call; reflexivity |]. intros _.
    apply validated_bind; [apply quiet_await |]. intros common.
    apply validated_bind; [| intros bytesBlock; apply validated_getResponse].
    destruct common as [b |]; [| apply quiet_ret].
    apply quiet_bind; [apply quiet_await |]. intros bytes. apply quiet_ret.
Qed.

Lemma postBlock_validated req :
  validated_answer node (postBlock node req).
Proof.
  unfold postBlock. apply validated_bind.
  - apply quiet_try.
    + apply quiet_bind; [apply quiet_parseRequest |]. intros requestData.
      apply quiet_bind; [apply quiet_await |]. intros b. apply quiet_await.
    + intros e. apply quiet_bind; [apply quiet_call; reflexivity |].
      intros _. apply quiet_throw.
  - intros normalizedBlock.
    apply validated_bind; [apply quiet_call; reflexivity |]. intros _.
    apply validated_bind; [apply quiet_await |]. intros _.
    apply validated_getResponse.
Qed.

End Answers.

(** X19. The four handlers answer only with the encoding of a payload
    that passed validation, encoded as their last step; a payload that does
    not validate is never encoded, and after an encoding nothing can fail
    any more. *)
Theorem handlers_answer_validated
  {BytesTransaction BaseTransaction TransportTransaction BytesBlock Block
   PeerType : Type}
  (node : TransportV2API.Node BytesTransaction BaseTransaction
            TransportTransaction BytesBlock Block PeerType)
  (ids : string) (req : TransportV2API.Request) :
  validated_answer node
    (TransportV2API.postSignatures node (TransportV2API.req_body req))
  /\ validated_answer node (TransportV2API.postTransactions node req)
  /\ validated_answer node (TransportV2API.getBlocksCommon node ids req)
  /\ validated_answer node (TransportV2API.postBlock node req).
Proof.
  split; [apply postSignatures_validated |].
  split; [apply postTransactions_validated |].
  split; [apply getBlocksCommon_validated | apply postBlock_validated].
Qed.

(* ===================================================================== *)
(** * Totals beyond the safe range *)
(* ===================================================================== *)

Section Rounding.

Import JS.

(** Iterating with a counter. *)
Lemma iter_pos_counted {A : Type} (f : A -> A) (P : Z -> A -> Prop) :
  (forall k x, 0 <= k -> P k x -> P (k + 1) (f x)) ->
  forall n k x, 0 <= k -> P k x -> P (k + Z.pos n) (SpecFloat.iter_pos f n x).
Proof.
  intros Hf. induction n as [n IH | n IH |]; intros k x Hk Hx; cbn [SpecFloat.iter_pos].
  - replace (k + Z.pos n~1) with (k + 1 + Z.pos n + Z.pos n) by lia.
    apply IH; [lia |]. apply IH; [lia |]. apply Hf; assumption.
  - replace (k + Z.pos n~0) with (k + Z.pos n + Z.pos n) by lia.
    apply IH; [lia |]. apply IH; assumption.
  - apply Hf; assumption.
Qed.

(** One shift to the right of a non-negative mantissa. *)
Lemma shr_1_nonneg (m : Z) (r s : bool) :
  0 <= m ->
  shr_1 {| shr_m := m; shr_r := r; shr_s := s |}
  = {| shr_m := m / 2; shr_r := Z.odd m; shr_s := r || s |}.
Proof.
  intros Hm. destruct m as [| [p | p |] |]; try lia; cbn [shr_1].
  - reflexivity.
  - f_equal. apply Z.div_unique with 1; lia.
  - f_equal. apply Z.div_unique with 0; lia.
  - reflexivity.
Qed.

Lemma shifted_step (P k : Z) (mrs : shr_record) :
  0 <= P -> 0 <= k -> shifted P k mrs -> shifted P (k + 1) (shr_1 mrs).
Proof.
  intros HP Hk (Hm & Hr & Hs). destruct mrs as [m r s]. cbn [shr_m shr_r shr_s] in *.
  assert (HT : 0 < 2 ^ k) by (apply Z.pow_pos_nonneg; lia).
  assert (Hm0 : 0 <= m) by (subst m; apply Z.div_pos; lia).
  rewrite (shr_1_nonneg m r s Hm0). unfold shifted. cbn [shr_m shr_r shr_s].
  rewrite Z.pow_add_r by lia. change (2 ^ 1) with 2.
  pose proof (Z.div_mod P (2 ^ k) ltac:(lia)) as HPk.
  pose proof (Z.mod_pos_bound P (2 ^ k) HT) as HRk.
  set (T := 2 ^ k) in *. set (R := P mod T) in *. set (q := P / T) in *.
  pose proof (Z.div_mod q 2 ltac:(lia)) as Hq.
  pose proof (Z.mod_pos_bound q 2 ltac:(lia)) as Hq2.
  assert (Hdiv : P / (T * 2) = q / 2).
  { symmetry. apply Z.div_unique with ((q mod 2) * T + R); nia. }
  assert (Hmod : P mod (T * 2) = (q mod 2) * T + R).
  { symmetry. apply Z.mod_unique with (q / 2); nia. }
  rewrite Hdiv, Hmod. subst m r s.
  assert (Hodd : Z.odd q = (q mod 2 =? 1)).
  { rewrite Zmod_odd. destruct (Z.odd q); reflexivity. }
  split; [reflexivity | split].
  - rewrite Hodd.
    destruct (Z.eqb_spec (q mod 2) 1) as [E | E];
      destruct (Z.leb_spec (T * 2) (2 * (q mod 2 * T + R))); try reflexivity; nia.
  - assert (Hm2 : (2 * (q mod 2 * T + R)) mod (T * 2) = 2 * R).
    { symmetry. apply Z.mod_unique with (q mod 2); nia. }
    rewrite Hm2.
    destruct (Z.leb_spec T (2 * R)) as [Hle | Hlt]; cbn [orb].
    + destruct (Z.eqb_spec (2 * R) 0); [lia | reflexivity].
    + rewrite (Z.mod_small (2 * R) T) by lia. reflexivity.
Qed.

Lemma shifted_start (P : Z) :
  shifted P 0 {| shr_m := P; shr_r := false; shr_s := false |}.
Proof.
  unfold shifted. cbn [shr_m shr_r shr_s]. change (2 ^ 0) with 1.
  rewrite Z.div_1_r, Z.mod_1_r. repeat split.
Qed.

Lemma shifted_iter (P : Z) (n : positive) :
  0 <= P ->
  shifted P (Z.pos n)
    (SpecFloat.iter_pos shr_1 n {| shr_m := P; shr_r := false; shr_s := false |}).
Proof.
  intros HP.
  apply (iter_pos_counted shr_1 (shifted P)
           (fun k x Hk => shifted_step P k x HP Hk) n 0);
    [lia | apply shifted_start].
Qed.

(** Rounding to nearest after the shifts is off by half the divisor at
    most. *)
Lemma round_shifted (P k : Z) (mrs : shr_record) :
  0 <= P -> 0 <= k -> shifted P k mrs ->
  let m := round_nearest_even (shr_m mrs) (loc_of_shr_record mrs) in
  P / 2 ^ k <= m <= P / 2 ^ k + 1
  /\ 2 * Z.abs (m * 2 ^ k - P) <= 2 ^ k.
Proof.
  intros HP Hk (Hm & Hr & Hs). destruct mrs as [m r s].
  cbn [shr_m shr_r shr_s] in *. cbv zeta.
  assert (HT : 0 < 2 ^ k) by (apply Z.pow_pos_nonneg; lia).
  pose proof (Z.div_mod P (2 ^ k) ltac:(lia)) as HPk.
  pose proof (Z.mod_pos_bound P (2 ^ k) HT) as HRk.
  set (T := 2 ^ k) in *. set (R := P mod T) in *. set (q := P / T) in *.
  subst m.
  destruct (Z.leb_spec T (2 * R)) as [Hle | Hlt]; subst r.
  - destruct s; cbn [loc_of_shr_record round_nearest_even].
    + split; [lia | nia].
    + symmetry in Hs. apply negb_false_iff, Z.eqb_eq in Hs.
      assert (H2R : 2 * R = T).
      { assert (Hu : (2 * R) mod T = 2 * R - T).
        { symmetry. apply Z.mod_unique with 1; lia. }
        lia. }
      destruct (Z.even q); split; try lia; nia.
  - destruct s; cbn [loc_of_shr_record round_nearest_even]; split; try lia; nia.
Qed.

(** The number of binary digits of a positive number. *)
Lemma digits2_pos_bounds (p : positive) :
  2 ^ (Z.pos (digits2_pos p) - 1) <= Z.pos p < 2 ^ Z.pos (digits2_pos p).
Proof.
  rewrite digits2_pos_size.
  pose proof (Pos.size_le p) as Hle. pose proof (Pos.size_gt p) as Hgt.
  apply Pos2Z.pos_le_pos in Hle. apply Pos2Z.pos_lt_pos in Hgt.
  rewrite Pos2Z.inj_pow in Hle, Hgt. rewrite (Pos2Z.inj_xO p) in Hle.
  replace (Z.pos (Pos.size p)) with (Z.pos (Pos.size p) - 1 + 1) in Hle at 1 by lia.
  rewrite Z.pow_add_r in Hle by lia. change (2 ^ 1) with 2 in Hle. lia.
Qed.

Lemma digits2_pos_unique (p : positive) (k : Z) :
  2 ^ (k - 1) <= Z.pos p < 2 ^ k -> Z.pos (digits2_pos p) = k.
Proof.
  intros [Hlo Hhi]. pose proof (digits2_pos_bounds p) as [Dlo Dhi].
  set (d := Z.pos (digits2_pos p)) in *.
  assert (Hd : 0 < d) by (unfold d; lia).
  assert (Hk : 0 < k).
  { destruct (Z_lt_le_dec 0 k) as [H | H]; [exact H |]. exfalso.
    destruct (Z.eq_dec k 0) as [-> | Hne].
    - change (2 ^ 0) with 1 in Hhi. lia.
    - rewrite Z.pow_neg_r in Hhi by lia. lia. }
  destruct (Z.lt_trichotomy d k) as [H | [H | H]]; [| exact H |]; exfalso.
  - assert (2 ^ d <= 2 ^ (k - 1)) by (apply Z.pow_le_mono_r; lia). lia.
  - assert (2 ^ k <= 2 ^ (d - 1)) by (apply Z.pow_le_mono_r; lia). lia.
Qed.

(** The double nearest to an integer of 54 to 1023 binary digits: a
    mantissa of 53 digits, the exponent that the shift leaves, and a value
    off by half a unit of the last place at most. *)
Lemma of_Z_pos_large (p : positive) :
  53 < Z.pos (digits2_pos p) <= 1023 ->
  exists m e,
    of_Z (Z.pos p) = S754_finite false m e
    /\ 0 < e
    /\ 2 * Z.abs (Z.pos m * 2 ^ e - Z.pos p) <= 2 ^ (Z.pos (digits2_pos p) - 53).
Proof.
  intros Hd. pose proof (digits2_pos_bounds p) as [Dlo Dhi].
  set (d := Z.pos (digits2_pos p)) in *.
  unfold of_Z, binary_normalize, binary_round, shl_align. fold d.
  assert (Hf : fexp 53 1024 (d + 0) = d - 53).
  { unfold fexp, emin. lia. }
  rewrite Hf.
  destruct (d - 53 - 0) as [| n | n] eqn:Hn; try lia.
  assert (Hdn : d = 53 + Z.pos n) by lia.
  unfold binary_round_aux, shr_fexp at 1, shr_record_of_loc, shr.
  cbn [Zdigits2]. fold d. rewrite Hf.
  replace (d - 53 - 0) with (Z.pos n) by lia.
  replace (d - 53) with (Z.pos n) in * by lia.
  pose proof (shifted_iter (Z.pos p) n ltac:(lia)) as Hsh.
  pose proof (round_shifted (Z.pos p) (Z.pos n) _ ltac:(lia) ltac:(lia) Hsh)
    as [Hm2 Herr].
  set (mrs := SpecFloat.iter_pos shr_1 n _) in *.
  set (m2 := round_nearest_even (shr_m mrs) (loc_of_shr_record mrs)) in *.
  assert (HT : 0 < 2 ^ Z.pos n) by (apply Z.pow_pos_nonneg; lia).
  assert (Hq : 2 ^ 52 <= Z.pos p / 2 ^ Z.pos n < 2 ^ 53).
  { replace (d - 1) with (52 + Z.pos n) in Dlo by lia.
    replace d with (53 + Z.pos n) in Dhi by lia.
    rewrite Z.pow_add_r in Dlo, Dhi by lia. split.
    - apply Z.div_le_lower_bound; lia.
    - apply Z.div_lt_upper_bound; lia. }
  destruct (Z_lt_le_dec m2 (2 ^ 53)) as [Hlt | Hge].
  - destruct m2 as [| q | q] eqn:Em2; try lia.
    assert (Hdq : Z.pos (digits2_pos q) = 53).
    { apply digits2_pos_unique. change (53 - 1) with 52. lia. }
    unfold shr_fexp, shr_record_of_loc, shr. cbn [Zdigits2].
    rewrite Hdq.
    assert (Hf2 : fexp 53 1024 (53 + (0 + Z.pos n)) - (0 + Z.pos n) = 0).
    { unfold fexp, emin. lia. }
    rewrite Hf2. cbn [shr_m].
    assert (Hle : (0 + Z.pos n <=? 1024 - 53) = true) by (apply Z.leb_le; lia).
    rewrite Hle. exists q, (0 + Z.pos n).
    split; [reflexivity | split; [lia |]].
    replace (0 + Z.pos n) with (Z.pos n) by lia. exact Herr.
  - assert (Em2 : m2 = 2 ^ 53) by lia.
    rewrite Em2 in *. change (2 ^ 53) with (Z.pos (2 ^ 53)).
    unfold shr_fexp, shr_record_of_loc, shr. cbn [Zdigits2].
    assert (Hdq : Z.pos (digits2_pos (2 ^ 53)) = 54) by reflexivity.
    rewrite Hdq.
    assert (Hf2 : fexp 53 1024 (54 + (0 + Z.pos n)) - (0 + Z.pos n) = 1).
    { unfold fexp, emin. lia. }
    rewrite Hf2. cbn [SpecFloat.iter_pos].
    rewrite shr_1_nonneg by lia. cbn [shr_m].
    change (Z.pos (2 ^ 53) / 2) with (Z.pos (2 ^ 52)). cbv iota.
    assert (Hle : (0 + Z.pos n + 1 <=? 1024 - 53) = true) by (apply Z.leb_le; lia).
    rewrite Hle. exists (2 ^ 52)%positive, (0 + Z.pos n + 1).
    split; [reflexivity | split; [lia |]].
    replace (0 + Z.pos n + 1) with (Z.pos n + 1) by lia.
    rewrite Z.pow_add_r by lia. change (2 ^ 1) with 2.
    replace (Z.pos (2 ^ 52) * (2 ^ Z.pos n * 2)) with (2 ^ 53 * 2 ^ Z.pos n);
      [exact Herr |].
    change (Z.pos (2 ^ 52)) with (2 ^ 52). change (2 ^ 53) with (2 ^ 52 * 2). lia.
Qed.

End Rounding.

Section LargeTotals.

Import JS.

Lemma floor_parseFloat_decimal_near (v : Z) :
  - 2 ^ 63 < v < 2 ^ 63 ->
  near 512 v (Math_floor (parseFloat (decimal v))).
Proof.
  intros Hv. unfold near.
  destruct (Z_lt_le_dec (Z.abs v) two53) as [Hsmall | Hlarge].
  { exists v. rewrite floor_parseFloat_decimal by (unfold two53 in *; lia).
    split; [reflexivity |]. rewrite Z.sub_diag. cbn [Z.abs]. lia. }
  assert (Hbig : forall p : positive,
            two53 <= Z.pos p < 2 ^ 63 ->
            exists m e,
              of_Z (Z.pos p) = S754_finite false m e /\ 0 < e
              /\ Z.abs (Z.pos m * 2 ^ e - Z.pos p) <= 512
              /\ 2 ^ 53 * Z.abs (Z.pos m * 2 ^ e - Z.pos p) <= Z.pos p).
  { intros p [Hlo Hhi]. pose proof (digits2_pos_bounds p) as [Dlo Dhi].
    set (d := Z.pos (digits2_pos p)) in *.
    assert (Hd : 53 < d <= 63).
    { split.
      - destruct (Z_lt_le_dec 53 d) as [H | H]; [exact H | exfalso].
        assert (2 ^ d <= 2 ^ 53) by (apply Z.pow_le_mono_r; lia).
        unfold two53 in Hlo. change (2 ^ 53) with 9007199254740992 in *. lia.
      - destruct (Z_le_gt_dec d 63) as [H | H]; [exact H | exfalso].
        assert (2 ^ 63 <= 2 ^ (d - 1)) by (apply Z.pow_le_mono_r; lia). lia. }
    destruct (of_Z_pos_large p) as (m & e & Hof & He & Herr); [fold d; lia |].
    fold d in Herr. exists m, e. split; [exact Hof | split; [exact He |]].
    assert (Hpow : 2 ^ (d - 53) <= 2 ^ 10) by (apply Z.pow_le_mono_r; lia).
    change (2 ^ 10) with 1024 in Hpow. split; [lia |].
    replace (d - 1) with (52 + (d - 53)) in Dlo by lia.
    rewrite Z.pow_add_r in Dlo by lia.
    change (2 ^ 53) with (2 ^ 52 * 2). nia. }
  unfold decimal. destruct v as [| p | p]; simpl Z.to_int.
  - unfold two53 in Hlarge. cbn [Z.abs] in Hlarge. lia.
  - simpl NilEmpty.string_of_int.
    rewrite parseFloat_string_of_uint, StrUnsigned_to_uint.
    destruct (Hbig p) as (m & e & -> & He & Hclose & Hrel);
      [cbn [Z.abs] in Hlarge; lia |].
    exists (Z.pos m * 2 ^ e). unfold Math_floor, to_Z.
    assert (E : (0 <=? e) = true) by (apply Z.leb_le; lia).
    rewrite E. cbn [to_Z]. rewrite E.
    split; [reflexivity | split; [exact Hclose | exact Hrel]].
  - simpl NilEmpty.string_of_int.
    change (parseFloat (String "-" (NilEmpty.string_of_uint (Pos.to_uint p))))
      with (SFopp (StrUnsigned (NilEmpty.string_of_uint (Pos.to_uint p)))).
    rewrite StrUnsigned_to_uint.
    destruct (Hbig p) as (m & e & -> & He & Hclose & Hrel);
      [cbn [Z.abs] in Hlarge; lia |].
    cbn [SFopp negb].
    exists (Z.neg m * 2 ^ e). unfold Math_floor, to_Z.
    assert (E : (0 <=? e) = true) by (apply Z.leb_le; lia).
    rewrite E. cbn [to_Z]. rewrite E.
    split; [reflexivity |].
    change (Z.neg m) with (- Z.pos m). change (Z.neg p) with (- Z.pos p).
    replace (- Z.pos m * 2 ^ e - - Z.pos p)
      with (- (Z.pos m * 2 ^ e - Z.pos p)) by lia.
    rewrite !Z.abs_opp. cbn [Z.abs] in Hrel |- *. split; [exact Hclose | exact Hrel].
Qed.

End LargeTotals.

(** X20. Beyond the safe range [sumRound] still returns integers, and
    they are close: for totals strictly between -2^63 and 2^63 that the
    store renders in decimal, the fees and every reward come back as an integer
    that differs from the stored one by at most 512, and by at most the
    2^53-th part of its size; below 2^53 that leaves no room, and the
    number is exact. *)
Theorem sumRound_near_in_bigint_range
  (env : Env) (round : Z) (tx : Transaction) (s : State)
  (f : Z) (rs : list Z) (ds : list Buffer) :
  RoundsModel_sumRound env (activeDelegates env) round tx
  = Resolved {| fees := JS.decimal f; rewards := map JS.decimal rs;
                delegates := ds |} ->
  - 2 ^ 63 < f < 2 ^ 63 ->
  Forall (fun r => - 2 ^ 63 < r < 2 ^ 63) rs ->
  exists sums,
    outcome_of (RoundsModule.sumRound env round tx s) = Ok sums
    /\ near 512 f (roundFees sums)
    /\ Forall2 (near 512) rs (roundRewards sums)
    /\ roundDelegates sums = ds.
Proof.
  intros Hres Hf Hrs.
  unfold RoundsModule.sumRound, RoundsModule.logger_debug, effect, await,
    mbind, M_bind, bind, mret, M_ret, ret. cbn beta iota.
  rewrite Hres. cbn [outcome_of fst fees rewards delegates].
  eexists. split; [reflexivity |]. cbn [roundFees roundRewards roundDelegates].
  split; [apply floor_parseFloat_decimal_near; exact Hf | split; [| reflexivity]].
  clear Hres.
  induction Hrs as [| r rs Hr _ IH]; [constructor |].
  cbn [map]. constructor; [| exact IH].
  apply floor_parseFloat_decimal_near. exact Hr.
Qed.

Lemma sumRound_near_example :
  let env :=
    {| activeDelegates := 3; dposv2_firstBlock := 4;
       RoundsModel_sumRound := fun _ _ _ =>
         Resolved {| fees := "9007199254740993";
                     rewards := ["10"]; delegates := [Example.pkA] |};
       generateDelegateList := fun _ => Resolved [Example.pkA];
       accountLogic := Example.logic;
       performOps_outcome := fun _ _ => Resolved tt;
       bus_outcome := Example.quiet_bus |} in
  exists sums,
    outcome_of (RoundsModule.sumRound env 1 0%nat (Example.state None)) = Ok sums
    /\ near 512 9007199254740993 (roundFees sums)
    /\ JS.to_Z (roundFees sums) = Some 9007199254740992.
Proof.
  cbv zeta.
  match goal with
  | |- exists sums, outcome_of (RoundsModule.sumRound ?env _ _ _) = _ /\ _ =>
      destruct (sumRound_near_in_bigint_range env 1 0%nat (Example.state None)
                  9007199254740993 [10] [Example.pkA])
        as (sums & Hout & Hnear & _)
  end.
  - reflexivity.
  - lia.
  - repeat constructor; lia.
  - exists sums. split; [exact Hout | split; [exact Hnear |]].
    vm_compute in Hout. injection Hout as <-. reflexivity.
Defined.
